(** * Competitive sudoku: the match scheduler of [experiment.py]

  A shallow embedding of [simulate_game] (competitive_sudoku/experiment.py)
  and of the few classes of [competitive_sudoku.sudoku] it relies on,
  followed by the properties of the turn loop. *)

From Stdlib Require Import ZArith Bool List String Ascii Lia.
From Stdlib Require Import DecimalString DecimalPos.
From stdpp Require Import base list.
Import ListNotations.

Local Open Scope Z_scope.

(** ** Python list indexing

  [l[k]] and [l[k] = v] accept an index in [-len, len); a negative
  index counts from the end, anything else raises IndexError
  (rendered here by [None]). *)

Module PyList.

Definition index {A : Type} (l : list A) (k : Z) : option nat :=
  let len := Z.of_nat (length l) in
  if (0 <=? k) && (k <? len) then Some (Z.to_nat k)
  else if (- len <=? k) && (k <? 0) then Some (Z.to_nat (len + k))
  else None.

Definition getitem {A : Type} (l : list A) (k : Z) : option A :=
  match index l k with
  | Some n => l !! n
  | None => None
  end.

Definition setitem {A : Type} (l : list A) (k : Z) (v : A) : option (list A) :=
  match index l k with
  | Some n => Some (<[n := v]> l)
  | None => None
  end.

(** [l.count(x)] on a list of integers. *)
Fixpoint count (l : list Z) (x : Z) : nat :=
  match l with
  | [] => O
  | y :: t => ((if (y =? x)%Z then 1 else 0) + count t x)%nat
  end.

End PyList.

(** ** Text of the oracle: substring tests, the score pattern, [int]

    A text is a string of one-byte characters; among these the class
    [\d] holds the ten digits [0] to [9] only. *)

Module Text.

Local Open Scope string_scope.

(** [pat in s] *)
Fixpoint contains (pat s : string) : bool :=
  String.prefix pat s ||
  match s with
  | EmptyString => false
  | String _ t => contains pat t
  end.

Definition is_digit (c : ascii) : bool :=
  let n := nat_of_ascii c in (48 <=? n)%nat && (n <=? 57)%nat.

(** The character class [[-\d]] of the score pattern. *)
Definition is_score_char (c : ascii) : bool :=
  Ascii.eqb c "-" || is_digit c.

Fixpoint take_while (p : ascii -> bool) (s : string) : string :=
  match s with
  | EmptyString => EmptyString
  | String c t => if p c then String c (take_while p t) else EmptyString
  end.

Fixpoint strip_prefix (pat s : string) : option string :=
  match pat, s with
  | EmptyString, _ => Some s
  | String a p, String b t => if Ascii.eqb a b then strip_prefix p t else None
  | String _ _, EmptyString => None
  end.

(** The pattern [The score is ([-\d]+)] tried at the start of [s]:
    the group is the longest run of class characters and must not be
    empty. *)
Definition match_score_here (s : string) : option string :=
  match strip_prefix "The score is " s with
  | Some rest =>
      match take_while is_score_char rest with
      | EmptyString => None
      | g => Some g
      end
  | None => None
  end.

(** [re.search(r'The score is ([-\d]+)', s)]: the leftmost position at
    which the pattern matches; the result is [match.group(1)]. *)
Fixpoint re_search_score (s : string) : option string :=
  match match_score_here s with
  | Some g => Some g
  | None =>
      match s with
      | EmptyString => None
      | String _ t => re_search_score t
      end
  end.

Definition digit_value (c : ascii) : Z := Z.of_nat (nat_of_ascii c) - 48.

Fixpoint all_digits (s : string) : bool :=
  match s with
  | EmptyString => true
  | String c t => is_digit c && all_digits t
  end.

Fixpoint digits_value (acc : Z) (s : string) : Z :=
  match s with
  | EmptyString => acc
  | String c t => digits_value (10 * acc + digit_value c) t
  end.

Definition nat_literal (s : string) : option Z :=
  match s with
  | EmptyString => None
  | _ => if all_digits s then Some (digits_value 0 s) else None
  end.

(** [int(g)] for a text [g] made of the characters of [[-\d]] only:
    an optional leading minus sign and at least one digit; anything
    else ([-], [--1], [1-2]) raises ValueError ([None]).  The cap on
    the number of digits of later interpreters is left out. *)
Definition int (g : string) : option Z :=
  match g with
  | String c t =>
      if Ascii.eqb c "-" then option_map Z.opp (nat_literal t) else nat_literal g
  | EmptyString => None
  end.

End Text.

(** ** The classes of [competitive_sudoku.sudoku] used by the scheduler *)

Module Sudoku.

(** Modelled from the spec: class [Move] and its subclass [TabooMove]
    (competitive_sudoku/sudoku.py is not among the sources).  A move is
    a (row, column, value) triple; a taboo move is a move of a second
    class carrying the same triple. *)
Inductive move : Type :=
| Move (i j value : Z)
| TabooMove (i j value : Z).

Definition triple (mv : move) : Z * Z * Z :=
  match mv with
  | Move i j value => (i, j, value)
  | TabooMove i j value => (i, j, value)
  end.

(** Modelled from the spec: [Move.__eq__]; equality is structural, on
    the triple. *)
Definition move_eq (a b : move) : bool :=
  let '(i1, j1, v1) := triple a in
  let '(i2, j2, v2) := triple b in
  (i1 =? i2) && (j1 =? j2) && (v1 =? v2).

(** [mv in l] *)
Definition move_in (mv : move) (l : list move) : bool :=
  existsb (move_eq mv) l.

(** Modelled from the spec: class [SudokuBoard]; a grid of dimension
    [N] stored as the flat list [squares], a cell being empty or
    holding a value. *)
Record SudokuBoard : Type := mkBoard {
  N : Z;
  squares : list Z
}.

(** Modelled from the spec: the constant [SudokuBoard.empty]. *)
Definition empty : Z := 0.

(** Modelled from the spec: [SudokuBoard.rc2f], the conversion of a
    coordinate to a flat index. *)
Definition rc2f (b : SudokuBoard) (i j : Z) : Z := N b * i + j.

(** Modelled from the spec: [SudokuBoard.put], placing a value in a
    cell: [squares[rc2f(i, j)] = value]. *)
Definition put (b : SudokuBoard) (i j value : Z) : option SudokuBoard :=
  option_map (mkBoard (N b)) (PyList.setitem (squares b) (rc2f b i j) value).

(** Modelled from the spec: class [GameState], the current board, the
    initial board, the accepted moves, the taboo moves and the two
    scores. *)
Record GameState : Type := mkGameState {
  initial_board : SudokuBoard;
  board : SudokuBoard;
  taboo_moves : list move;
  moves : list move;
  scores : list Z
}.

End Sudoku.

(** ** The match scheduler: [simulate_game] *)

Module Experiment.

Import Sudoku.
Local Open Scope string_scope.

(** One call of [solve_sudoku]: the board whose text is sent, the flat
    index and the value of the [--move] option. *)
Definition oracle_call : Type := (SudokuBoard * Z * Z)%type.

(** The variables of [simulate_game] that live across turns, with the
    calls made to the oracle so far. *)
Record World : Type := mkWorld {
  game_state : GameState;
  move_number : nat;
  oracle_calls : list oracle_call
}.

(** What the outside gives to one turn: the triple found in
    [player.best_move] once the agent's process has been stopped, and
    the text [solve_sudoku] answers if it is called in this turn. *)
Record TurnInput : Type := mkTurn {
  best_move : Z * Z * Z;
  output : string
}.

Inductive exn : Type :=
| RuntimeError (msg : string)
| ValueError
| IndexError
| UnboundLocalError.

(** How one pass through the body of the [while] loop ends. *)
Inductive outcome : Type :=
| Continue (w : World)
| Return (w : World) (game_winner : Z)
| Raise (w : World) (e : exn).

(** [(player1, 1) if len(game_state.moves) % 2 == 0 else (player2, 2)] *)
Definition player_number (gs : GameState) : Z :=
  if (length (moves gs) mod 2 =? 0)%nat then 1 else 2.

Definition solve_sudoku (w : World) (b : SudokuBoard) (k value : Z) : World :=
  mkWorld (game_state w) (move_number w) (oracle_calls w ++ [(b, k, value)]).

Definition with_game_state (w : World) (gs : GameState) : World :=
  mkWorld gs (move_number w) (oracle_calls w).

(** [game_state.moves.append(TabooMove(i, j, value))] followed by
    [game_state.taboo_moves.append(TabooMove(i, j, value))] *)
Definition record_taboo (i j value : Z) (gs : GameState) : GameState :=
  mkGameState (initial_board gs) (board gs)
    (taboo_moves gs ++ [TabooMove i j value])
    (moves gs ++ [TabooMove i j value])
    (scores gs).

(** [game_state.board.put(i, j, value)] followed by
    [game_state.moves.append(best_move)] *)
Definition apply_move (i j value : Z) (gs : GameState) : option GameState :=
  match put (board gs) i j value with
  | Some b' =>
      Some (mkGameState (initial_board gs) b' (taboo_moves gs)
              (moves gs ++ [Move i j value]) (scores gs))
  | None => None
  end.

(** [game_state.scores[player_number-1] =
     game_state.scores[player_number-1] + player_score] *)
Definition add_score (player player_score : Z) (gs : GameState) : option GameState :=
  match PyList.getitem (scores gs) (player - 1) with
  | Some s =>
      match PyList.setitem (scores gs) (player - 1) (s + player_score) with
      | Some scores' =>
          Some (mkGameState (initial_board gs) (board gs) (taboo_moves gs)
                  (moves gs) scores')
      | None => None
      end
  | None => None
  end.

(** The last statement of the loop body. *)
Definition end_of_turn (player player_score : Z) (w : World) : outcome :=
  match add_score player player_score (game_state w) with
  | Some gs' => Continue (with_game_state w gs')
  | None => Raise w IndexError
  end.

(** The [if 'The score is' in output] statement. *)
Definition score_branch (player i j value : Z) (out : string) (w : World) : outcome :=
  if Text.contains "The score is" out then
    match Text.re_search_score out with
    | Some g =>
        match Text.int g with
        | Some player_score =>
            match apply_move i j value (game_state w) with
            | Some gs' =>
                end_of_turn player player_score
                  (mkWorld gs' (S (move_number w)) (oracle_calls w))
            | None => Raise w IndexError
            end
        | None => Raise w ValueError
        end
    | None => Raise w (RuntimeError out)
    end
  else end_of_turn player 0 w.

(** The [if 'has no solution' in output] statement. *)
Definition taboo_branch (i j value : Z) (out : string) (w : World) : World :=
  if Text.contains "has no solution" out
  then with_game_state w (record_taboo i j value (game_state w))
  else w.

(** The body of the [while] loop, from the choice of the player to the
    update of the score. *)
Definition turn (inp : TurnInput) (w : World) : outcome :=
  let gs := game_state w in
  let player := player_number gs in
  let '(i, j, value) := best_move inp in
  if negb (move_eq (Move i j value) (Move 0 0 0)) then
    if move_in (TabooMove i j value) (taboo_moves gs) then
      Return w (3 - player)
    else
      let w := solve_sudoku w (board gs) (rc2f (board gs) i j) value in
      let out := output inp in
      if Text.contains "Invalid move" out then Return w (3 - player)
      else if Text.contains "Illegal move" out then Return w (3 - player)
      else score_branch player i j value out (taboo_branch i j value out w)
  else Return w (3 - player).

(** How a match ends.  [Pending] is a match whose loop asks for a turn
    that the given list of turns does not hold. *)
Inductive result : Type :=
| Finished (sc : list Z) (game_winner : Z)
| Forfeited (sc : list Z) (game_winner : Z)
| Raised (e : exn)
| Pending (w : World).

(** The [if]/[elif]/[elif] after the loop and the final [return]. *)
Definition after_loop (w : World) : result :=
  let sc := scores (game_state w) in
  match PyList.getitem sc 0, PyList.getitem sc 1 with
  | Some s0, Some s1 =>
      if (s0 >? s1)%Z then Finished sc 1
      else if (s0 =? s1)%Z then Finished sc 0
      else if (s0 <? s1)%Z then Finished sc 2
      else Raised UnboundLocalError
  | _, _ => Raised IndexError
  end.

(** [while move_number < number_of_moves: ...] and the statements
    after it. *)
Fixpoint while_loop (number_of_moves : nat) (turns : list TurnInput) (w : World)
  : result :=
  if (move_number w <? number_of_moves)%nat then
    match turns with
    | [] => Pending w
    | inp :: rest =>
        match turn inp w with
        | Continue w' => while_loop number_of_moves rest w'
        | Return w' game_winner => Forfeited (scores (game_state w')) game_winner
        | Raise _ e => Raised e
        end
    end
  else after_loop w.

(** [number_of_moves = initial_board.squares.count(SudokuBoard.empty)] *)
Definition number_of_moves (initial_board : SudokuBoard) : nat :=
  PyList.count (squares initial_board) empty.

(** [GameState(initial_board, copy.deepcopy(initial_board), [], [], [0, 0])]
    with [move_number = 0]. *)
Definition start (initial_board : SudokuBoard) : World :=
  mkWorld (mkGameState initial_board initial_board [] [] [0; 0]) O [].

Definition simulate_game (initial_board : SudokuBoard) (turns : list TurnInput)
  : result :=
  while_loop (number_of_moves initial_board) turns (start initial_board).

End Experiment.

(** ** The isolation of the agent's computation

  The statements of the loop body between the choice of the player and
  the test of the move, as the events the scheduler performs on the
  agent's process, on the lock and on the shared slot
  [player.best_move]. *)

Module Isolation.

Inductive event : Type :=
| ResetSlot          (* player.best_move[0..2] = 0 *)
| Start              (* multiprocessing.Process(...); process.start() *)
| Sleep              (* time.sleep(calculation_time) *)
| Acquire            (* lock.acquire() *)
| Terminate          (* process.terminate() *)
| Release            (* lock.release() *)
| ReadSlot.          (* i, j, value = player.best_move *)

Definition event_eqb (a b : event) : bool :=
  match a, b with
  | ResetSlot, ResetSlot | Start, Start | Sleep, Sleep | Acquire, Acquire
  | Terminate, Terminate | Release, Release | ReadSlot, ReadSlot => true
  | _, _ => false
  end.

(** The statements of the [try] block. *)
Definition try_block : list event := [Start; Sleep; Acquire; Terminate; Release].

(** The events of one turn.  [raises_at = Some n] is a turn in which
    statement [n] of the [try] block raises: the statements before it
    have run, the [except] clause prints the error, and the slot is
    read all the same. *)
Definition turn_events (raises_at : option nat) : list event :=
  ResetSlot ::
  match raises_at with
  | Some n => firstn n try_block
  | None => try_block
  end ++ [ReadSlot].

(** Whether the scheduler holds the lock after the given events. *)
Fixpoint holds_lock (held : bool) (es : list event) : bool :=
  match es with
  | [] => held
  | Acquire :: t => holds_lock true t
  | Release :: t => holds_lock false t
  | _ :: t => holds_lock held t
  end.




End Isolation.

(** ** Measures and predicates used to state the properties *)

Module Props.

Import Sudoku Experiment.

(** The scored moves of a history: the entries of class [Move].  A
    taboo recording appends an entry of class [TabooMove] and is not
    counted. *)
Fixpoint scored_moves (l : list move) : nat :=
  match l with
  | [] => O
  | Move _ _ _ :: t => S (scored_moves t)
  | TabooMove _ _ _ :: t => scored_moves t
  end.

(** The state after the given turns when none of them ends the match. *)
Fixpoint turns_applied (turns : list TurnInput) (w : World) : option World :=
  match turns with
  | [] => Some w
  | inp :: rest =>
      match turn inp w with
      | Continue w' => turns_applied rest w'
      | _ => None
      end
  end.

(** Turn number [k] (from 0) of the match played on [b] with [turns]
    is run, in state [w] and with input [inp]: the turns before it did
    not end the match, and the test of the loop holds in [w]. *)
Definition at_turn (b : SudokuBoard) (turns : list TurnInput) (k : nat)
    (w : World) (inp : TurnInput) : Prop :=
  turns_applied (firstn k turns) (start b) = Some w
  /\ turns !! k = Some inp
  /\ (move_number w < number_of_moves b)%nat.

(** The move read from the shared slot is not the all-zero triple. *)
Definition proposes (inp : TurnInput) (i j value : Z) : Prop :=
  best_move inp = (i, j, value) /\ move_eq (Move i j value) (Move 0 0 0) = false.

(** The oracle text lets the turn go past the two forfeiting tests. *)
Definition accepted (out : string) : bool :=
  negb (Text.contains "Invalid move" out) && negb (Text.contains "Illegal move" out).

(** The oracle text says that the sudoku has no solution after the
    move, and carries no score line. *)
Definition no_solution_verdict (out : string) : bool :=
  accepted out && Text.contains "has no solution" out
  && negb (Text.contains "The score is" out).

(** The oracle text carries a score line, and does not say that the
    sudoku has no solution. *)
Definition scored_verdict (out : string) : bool :=
  accepted out && negb (Text.contains "has no solution" out)
  && Text.contains "The score is" out.

(** The oracle text carries none of the four phrases the scheduler
    looks for. *)
Definition unrecognised (out : string) : bool :=
  accepted out && negb (Text.contains "has no solution" out)
  && negb (Text.contains "The score is" out).

(** The score the oracle reports in its text: the number of the score
    line, and 0 for a text without a score line. *)
Definition reported_score (out : string) : option Z :=
  if Text.contains "The score is" out then
    match Text.re_search_score out with
    | Some g => Text.int g
    | None => None
    end
  else Some 0.

(** The game state after the [if 'has no solution' in output]
    statement. *)
Definition after_taboo (i j value : Z) (out : string) (gs : GameState) : GameState :=
  if Text.contains "has no solution" out then record_taboo i j value gs else gs.

Definition total (sc : list Z) : Z := fold_right Z.add 0 sc.


(** What links the counter of the loop to the history, and the shape
    of the score list. *)
Definition consistent (w : World) : Prop :=
  move_number w = scored_moves (moves (game_state w))
  /\ length (scores (game_state w)) = 2%nat.

(** The entries a turn appends to [game_state.moves], by the phrases
    of the oracle text. *)
Definition appended_moves (i j value : Z) (out : string) : list move :=
  (if Text.contains "has no solution" out then [TabooMove i j value] else [])
  ++ (if Text.contains "The score is" out then [Move i j value] else []).

(** The entries a turn appends to [game_state.taboo_moves]. *)
Definition appended_taboo (i j value : Z) (out : string) : list move :=
  if Text.contains "has no solution" out then [TabooMove i j value] else [].

(** The winner the comparison after the loop gives for two scores. *)
Definition winner_of (s0 s1 : Z) : Z :=
  if s0 >? s1 then 1 else if s0 =? s1 then 0 else 2.

End Props.

(** ** Matches used as examples *)

Module Examples.

Import Sudoku Experiment Props.

(** The start position of [main]. *)
Definition board_4x4 : SudokuBoard :=
  mkBoard 4 [1; 2; 0; 4;
             0; 4; 0; 2;
             2; 1; 0; 3;
             0; 0; 0; 1].

(** A position with two empty cells. *)
Definition board_two_empty : SudokuBoard :=
  mkBoard 4 [1; 2; 3; 4;
             3; 4; 0; 2;
             2; 1; 4; 3;
             4; 3; 0; 1].

Definition scored_turn : TurnInput := mkTurn (0, 2, 3) "The score is 1".

Definition taboo_turn : TurnInput :=
  mkTurn (1, 0, 1) "The sudoku has no solution after the move (1,0) -> 1.".

Definition no_move_turn : TurnInput := mkTurn (0, 0, 0) "".

Definition negative_turn : TurnInput := mkTurn (0, 2, 3) "The score is -1".

Definition silent_turn : TurnInput := mkTurn (0, 2, 3) "".

Definition mixed_turn : TurnInput :=
  mkTurn (0, 2, 3) "The sudoku has no solution. The score is 3".

Definition state_after (turns : list TurnInput) (b : SudokuBoard) : World :=
  match turns_applied turns (start b) with
  | Some w => w
  | None => start b
  end.

(** The state of the match on [board_4x4] after one taboo recording. *)
Definition after_taboo_turn : World :=
  Eval vm_compute in state_after [taboo_turn] board_4x4.

(** The state of the match on [board_4x4] after one scored move. *)
Definition after_scored_turn : World :=
  Eval vm_compute in state_after [scored_turn] board_4x4.

(** A whole match on [board_two_empty]: a scored move of player 1, a
    taboo recording of player 2, a scored move of player 1. *)
Definition short_match : list TurnInput :=
  [mkTurn (1, 2, 1) "The score is 1";
   mkTurn (3, 2, 1) "The sudoku has no solution after the move (3,2) -> 1.";
   mkTurn (3, 2, 2) "The score is 3"].

End Examples.

(** ** Texts written by Python: [str] of an integer and of a list *)

Module Format.

Local Open Scope string_scope.

(** [str(z)] for an integer: the decimal digits, with a leading minus
    sign for a negative number. *)
Definition str_int (z : Z) : string := NilZero.string_of_int (Z.to_int z).

Fixpoint join (sep : string) (l : list string) : string :=
  match l with
  | [] => ""
  | [x] => x
  | x :: t => x ++ sep ++ join sep t
  end.

(** [str(l)] for a list of integers: [[a, b]]. *)
Definition str_list (l : list Z) : string :=
  "[" ++ join ", " (map str_int l) ++ "]".

(** The number of occurrences of a character. *)
Fixpoint count_char (c : ascii) (s : string) : nat :=
  match s with
  | EmptyString => O
  | String a t => ((if Ascii.eqb a c then 1 else 0) + count_char c t)%nat
  end.

(** [s.replace(pat, '')] for a pattern that is not empty: the
    occurrences of [pat] are removed from left to right.  [skip] counts
    the characters of an occurrence still to be dropped. *)
Fixpoint remove_from (pat : string) (skip : nat) (s : string) : string :=
  match s with
  | EmptyString => EmptyString
  | String c t =>
      match skip with
      | S k => remove_from pat k t
      | O =>
          if String.prefix pat s
          then remove_from pat (String.length pat - 1) t
          else String c (remove_from pat O t)
      end
  end.

Definition remove_all (pat s : string) : string := remove_from pat O s.

End Format.

(** ** The series of matches of [main] *)

Module Main.

Import Sudoku Experiment.
Local Open Scope string_scope.

(** The agents and labels of the innermost loop of [main]: the module
    each of the two [SudokuAI] objects was made from, and the two labels
    written in the row. *)
Record Sides : Type := mkSides {
  player1 : string;
  player2 : string;
  player_1 : string;
  player_2 : string
}.

(** One call of [simulate_game] in [main], with the text of [time] as
    the row shows it. *)
Record Trial : Type := mkTrial {
  sides : Sides;
  time : string
}.

(** [time_args = [0.1, 0.5, 1, 5]], each as [float(i)] is printed. *)
Definition time_args : list string := ["0.1"; "0.5"; "1.0"; "5.0"].

Definition opponents : list string :=
  ["greedy_player.sudokuai"; "team22_A2.sudokuai"].

Definition nr_of_tests : nat := 20.

(** [player1, player2 = player2, player1] and
    [player_1, player_2 = player_2, player_1] *)
Definition swap (s : Sides) : Sides :=
  mkSides (player2 s) (player1 s) (player_2 s) (player_1 s).

(** [for i in time_args: ... for j in range(nr_of_tests): ...] *)
Definition games_of_round (times : list string) (nr : nat) (s : Sides) : list Trial :=
  flat_map (fun t => repeat (mkTrial s t) nr) times.

(** [for h in range(n): ...], the sides being exchanged at the end of
    each pass. *)
Fixpoint rounds (n : nat) (times : list string) (nr : nat) (s : Sides) : list Trial :=
  match n with
  | O => []
  | S n' => games_of_round times nr s ++ rounds n' times nr (swap s)
  end.

(** The objects and labels set at the head of the loop on the
    opponents. *)
Definition sides_against (first opponent : string) : Sides :=
  mkSides (first ++ ".sudokuai") opponent
          first (Format.remove_all ".sudokuai" opponent).

(** The calls of [simulate_game] of the loop on [opps], in order. *)
Definition trials_with (opps times : list string) (nr : nat) (first : string)
  : list Trial :=
  flat_map (fun opponent => rounds 2 times nr (sides_against first opponent)) opps.

Definition trials (first : string) : list Trial :=
  trials_with opponents time_args nr_of_tests first.

(** [f'{board_type}'] for [board_type = args.board]. *)
Definition board_text (board_type : option string) : string :=
  match board_type with
  | Some f => f
  | None => "None"
  end.

(** The row written for one match:
    [f'{player_1}, {player_2}, {board_type}, {time}, {game_state}, {game_winner}'],
    [game_state] being the list of scores [simulate_game] returns. *)
Definition row (board_type : option string) (t : Trial) (sc : list Z) (win : Z)
  : string :=
  player_1 (sides t) ++ ", " ++ player_2 (sides t) ++ ", "
  ++ board_text board_type ++ ", " ++ time t ++ ", "
  ++ Format.str_list sc ++ ", " ++ Format.str_int win.

Definition header : string := "Player1,Player2,Board,Time,Score,Winner".

(** How the series ends: all the matches played, an exception of a
    match that leaves [main], or a match still waiting for a turn. *)
Inductive status : Type :=
| Completed
| Aborted (e : exn)
| Waiting.

(** The matches of [ts] played one after the other on [board]; match
    number [n] gets the turns [script n].  Each match that returns
    appends its row to the lines of the file. *)
Fixpoint play_trials (board : SudokuBoard) (board_type : option string)
    (script : nat -> list TurnInput) (n : nat) (ts : list Trial)
    (outfile : list string) : list string * status :=
  match ts with
  | [] => (outfile, Completed)
  | t :: rest =>
      match simulate_game board (script n) with
      | Finished sc win | Forfeited sc win =>
          play_trials board board_type script (S n) rest
            (outfile ++ [row board_type t sc win])
      | Raised e => (outfile, Aborted e)
      | Pending _ => (outfile, Waiting)
      end
  end.

(** The [with open('outfile.txt', 'a+')] block of [main]: the header is
    appended to the lines already in the file, then the rows. *)
Definition experiment (first : string) (board : SudokuBoard)
    (board_type : option string) (script : nat -> list TurnInput)
    (outfile : list string) : list string * status :=
  play_trials board board_type script O (trials first) (outfile ++ [header]).

End Main.

(** ** More measures and predicates *)

Module MoreProps.

Import Sudoku Experiment Props.

Definition is_taboo (mv : move) : bool :=
  match mv with
  | TabooMove _ _ _ => true
  | Move _ _ _ => false
  end.

(** The points a turn credits: the reported score, 0 when the text
    gives none. *)
Definition credited (inp : TurnInput) : Z :=
  match reported_score (output inp) with
  | Some player_score => player_score
  | None => 0
  end.

Definition sum_credited (turns : list TurnInput) : Z :=
  fold_right (fun inp acc => credited inp + acc) 0 turns.

(** The oracle text gives exactly one of the two verdicts the match goes
    on from. *)
Definition one_verdict (inp : TurnInput) : bool :=
  scored_verdict (output inp) || no_solution_verdict (output inp).

(** The move of a turn with a score line goes to an empty cell of the
    board and puts a value that is not the empty mark. *)
Definition fills_empty_cell (inp : TurnInput) (w : World) : Prop :=
  Text.contains "The score is" (output inp) = true ->
  let '(i, j, value) := best_move inp in
  let b := board (game_state w) in
  PyList.getitem (squares b) (rc2f b i j) = Some empty /\ value <> empty.

(** Every turn of the run is such a turn. *)
Fixpoint well_placed (turns : list TurnInput) (w : World) : Prop :=
  match turns with
  | [] => True
  | inp :: rest =>
      fills_empty_cell inp w
      /\ match turn inp w with
         | Continue w' => well_placed rest w'
         | _ => True
         end
  end.

(** The oracle text of the turn has no score line. *)
Definition no_score_line (inp : TurnInput) : bool :=
  negb (Text.contains "The score is" (output inp)).

(** The first character of a text, if any, is not of the class
    [[-\d]]. *)
Definition stops_number (rest : string) : bool :=
  match rest with
  | EmptyString => true
  | String c _ => negb (Text.is_score_char c)
  end.

Fixpoint all_score_chars (s : string) : bool :=
  match s with
  | EmptyString => true
  | String c t => Text.is_score_char c && all_score_chars t
  end.

End MoreProps.

(** ** Facts about one turn and about the loop *)

Module Facts.

Import Sudoku Experiment Props.

Lemma player_number_cases (gs : GameState) :
  player_number gs = 1 \/ player_number gs = 2.
Proof. unfold player_number. destruct (_ =? _)%nat; auto. Qed.

Lemma parity_flip (n : nat) :
  ((S n mod 2 =? 0) = negb (n mod 2 =? 0))%nat.
Proof.
  destruct (Nat.eqb_spec (n mod 2) 0), (Nat.eqb_spec (S n mod 2) 0);
    simpl; try reflexivity; exfalso.
  - pose proof (Nat.div_mod_eq n 2). pose proof (Nat.div_mod_eq (S n) 2). lia.
  - pose proof (Nat.div_mod_eq n 2). pose proof (Nat.div_mod_eq (S n) 2).
    pose proof (Nat.mod_upper_bound n 2). pose proof (Nat.mod_upper_bound (S n) 2).
    lia.
Qed.

Lemma player_number_after_append (gs gs' : GameState) (mv : move) :
  moves gs' = moves gs ++ [mv] ->
  player_number gs' = 3 - player_number gs.
Proof.
  intros E. unfold player_number. rewrite E, length_app.
  replace (length (moves gs) + length [mv])%nat with (S (length (moves gs)))
    by (simpl; lia).
  rewrite parity_flip. destruct (_ =? _)%nat; reflexivity.
Qed.

Lemma scored_moves_app (l1 l2 : list move) :
  scored_moves (l1 ++ l2) = (scored_moves l1 + scored_moves l2)%nat.
Proof.
  induction l1 as [| [? ? ?|? ? ?] t IH]; simpl; try rewrite IH; reflexivity.
Qed.

Lemma add_score_two (p ps s0 s1 : Z) (gs : GameState) :
  scores gs = [s0; s1] ->
  (p = 1 \/ p = 2) ->
  add_score p ps gs =
    Some (mkGameState (initial_board gs) (board gs) (taboo_moves gs) (moves gs)
            (if p =? 1 then [s0 + ps; s1] else [s0; s1 + ps])).
Proof.
  intros E [-> | ->]; unfold add_score; rewrite E; reflexivity.
Qed.

Lemma two_scores (sc : list Z) :
  length sc = 2%nat -> exists s0 s1, sc = [s0; s1].
Proof.
  destruct sc as [| s0 [| s1 [| ? ?]]]; simpl; intros H; try discriminate.
  eauto.
Qed.

(** A turn that does not end the match, read back as the sequence of
    its effects. *)
Lemma turn_continue_inv (inp : TurnInput) (w w' : World) :
  turn inp w = Continue w' ->
  exists i j value player_score gs2,
    proposes inp i j value
    /\ move_in (TabooMove i j value) (taboo_moves (game_state w)) = false
    /\ accepted (output inp) = true
    /\ reported_score (output inp) = Some player_score
    /\ (if Text.contains "The score is" (output inp)
        then apply_move i j value (after_taboo i j value (output inp) (game_state w))
               = Some gs2
             /\ move_number w' = S (move_number w)
        else gs2 = after_taboo i j value (output inp) (game_state w)
             /\ move_number w' = move_number w)
    /\ add_score (player_number (game_state w)) player_score gs2
         = Some (game_state w')
    /\ oracle_calls w' =
         oracle_calls w
           ++ [(board (game_state w), rc2f (board (game_state w)) i j, value)].
Proof.
  unfold turn, proposes, accepted, reported_score.
  destruct (best_move inp) as [[i j] value].
  destruct (move_eq (Move i j value) (Move 0 0 0)) eqn:Hs; simpl; [discriminate |].
  destruct (move_in _ _) eqn:Ht; [discriminate |].
  destruct (Text.contains "Invalid move" _) eqn:H1; [discriminate |].
  destruct (Text.contains "Illegal move" _) eqn:H2; [discriminate |].
  unfold score_branch, taboo_branch, end_of_turn, after_taboo.
  destruct (Text.contains "The score is" _) eqn:H4.
  - destruct (Text.re_search_score _) as [g |]; [| discriminate].
    destruct (Text.int g) as [ps |]; [| discriminate].
    destruct (Text.contains "has no solution" _) eqn:H3; simpl;
      (destruct (apply_move _ _ _ _) as [gs2 |] eqn:Ha; [| discriminate]);
      simpl;
      (destruct (add_score _ _ gs2) as [gs3 |] eqn:Hb; [| discriminate]);
      intros [= <-]; simpl;
      exists i, j, value, ps, gs2; repeat split; auto.
  - destruct (Text.contains "has no solution" _) eqn:H3; simpl;
      match goal with
      | |- context [add_score ?p ?s ?g] =>
          destruct (add_score p s g) as [gs3 |] eqn:Hb; [| discriminate]
      end;
      intros [= <-]; simpl;
      eexists i, j, value, 0, _; repeat split; eauto.
Qed.

Lemma add_score_fields (p ps : Z) (gs gs' : GameState) :
  add_score p ps gs = Some gs' ->
  moves gs' = moves gs /\ taboo_moves gs' = taboo_moves gs
  /\ board gs' = board gs /\ initial_board gs' = initial_board gs
  /\ length (scores gs') = length (scores gs).
Proof.
  unfold add_score, PyList.setitem.
  destruct (PyList.getitem _ _); [| discriminate].
  destruct (PyList.index _ _); [| discriminate].
  intros [= <-]; simpl. rewrite length_insert. auto.
Qed.

Lemma apply_move_fields (i j value : Z) (gs gs' : GameState) :
  apply_move i j value gs = Some gs' ->
  moves gs' = moves gs ++ [Move i j value] /\ taboo_moves gs' = taboo_moves gs
  /\ put (board gs) i j value = Some (board gs') /\ scores gs' = scores gs.
Proof.
  unfold apply_move. destruct (put _ _ _ _); [| discriminate].
  intros [= <-]; simpl. auto.
Qed.

Lemma after_taboo_fields (i j value : Z) (out : string) (gs : GameState) :
  let gs' := after_taboo i j value out gs in
  moves gs' = moves gs ++ appended_taboo i j value out
  /\ taboo_moves gs' = taboo_moves gs ++ appended_taboo i j value out
  /\ board gs' = board gs /\ scores gs' = scores gs.
Proof.
  unfold after_taboo, appended_taboo.
  destruct (Text.contains _ _); simpl; rewrite ?app_nil_r; auto.
Qed.

(** The effects of a turn that does not end the match, field by
    field. *)
Lemma turn_continue_shape (inp : TurnInput) (w w' : World) :
  turn inp w = Continue w' ->
  exists i j value,
    proposes inp i j value
    /\ moves (game_state w') =
         moves (game_state w) ++ appended_moves i j value (output inp)
    /\ taboo_moves (game_state w') =
         taboo_moves (game_state w) ++ appended_taboo i j value (output inp)
    /\ (if Text.contains "The score is" (output inp)
        then put (board (game_state w)) i j value = Some (board (game_state w'))
             /\ move_number w' = S (move_number w)
        else board (game_state w') = board (game_state w)
             /\ move_number w' = move_number w)
    /\ length (scores (game_state w')) = length (scores (game_state w)).
Proof.
  intros H. apply turn_continue_inv in H.
  destruct H as (i & j & value & ps & gs2 & Hp & _ & _ & _ & Hs & Ha & _).
  exists i, j, value. split; [exact Hp |].
  apply add_score_fields in Ha. destruct Ha as (Em & Et & Eb & _ & El).
  pose proof (after_taboo_fields i j value (output inp) (game_state w)) as Ht.
  simpl in Ht. destruct Ht as (Tm & Tt & Tb & Ts).
  unfold appended_moves.
  destruct (Text.contains "The score is" (output inp)).
  - destruct Hs as [Hs Hn]. apply apply_move_fields in Hs.
    destruct Hs as (Am & At & Ab & As).
    rewrite Em, Et, Eb, El, Am, At, As, Tm, Tt, Ts, <- Tb, app_assoc.
    auto.
  - destruct Hs as [-> Hn].
    rewrite Em, Et, Eb, El, Tm, Tt, Tb, Ts, app_nil_r. auto.
Qed.

Lemma turn_consistent (inp : TurnInput) (w w' : World) :
  turn inp w = Continue w' -> consistent w -> consistent w'.
Proof.
  intros H [Hc Hl]. apply turn_continue_shape in H.
  destruct H as (i & j & value & _ & Em & _ & Hb & El).
  split; [| congruence].
  rewrite Em, scored_moves_app. unfold appended_moves.
  destruct (Text.contains "The score is" _), (Text.contains "has no solution" _);
    destruct Hb as [_ ->]; simpl; lia.
Qed.

Lemma turn_move_number (inp : TurnInput) (w w' : World) :
  turn inp w = Continue w' ->
  (move_number w <= move_number w' <= S (move_number w))%nat.
Proof.
  intros H. apply turn_continue_shape in H.
  destruct H as (i & j & value & _ & _ & _ & Hb & _).
  destruct (Text.contains "The score is" _); destruct Hb as [_ ->]; lia.
Qed.

Lemma start_consistent (b : SudokuBoard) : consistent (start b).
Proof. split; reflexivity. Qed.

Lemma turns_applied_consistent (turns : list TurnInput) (w w' : World) :
  turns_applied turns w = Some w' -> consistent w -> consistent w'.
Proof.
  revert w. induction turns as [| inp rest IH]; simpl; intros w H Hc.
  - congruence.
  - destruct (turn inp w) as [w1 | |] eqn:Ht; try discriminate.
    eauto using turn_consistent.
Qed.

Lemma turns_applied_monotone (turns : list TurnInput) (w w' : World) :
  turns_applied turns w = Some w' -> (move_number w <= move_number w')%nat.
Proof.
  revert w. induction turns as [| inp rest IH]; simpl; intros w H.
  - injection H as <-. lia.
  - destruct (turn inp w) as [w1 | |] eqn:Ht; try discriminate.
    apply turn_move_number in Ht. apply IH in H. lia.
Qed.

Lemma turns_applied_app (t1 t2 : list TurnInput) (w : World) :
  turns_applied (t1 ++ t2) w =
    match turns_applied t1 w with
    | Some w1 => turns_applied t2 w1
    | None => None
    end.
Proof.
  revert w. induction t1 as [| inp rest IH]; simpl; intros w; [reflexivity |].
  destruct (turn inp w); auto.
Qed.

(** The loop runs the turns that come before a state in which its test
    still holds. *)
Lemma while_loop_skip (n : nat) (pre rest : list TurnInput) (w w' : World) :
  turns_applied pre w = Some w' ->
  (move_number w' < n)%nat ->
  while_loop n (pre ++ rest) w = while_loop n rest w'.
Proof.
  revert w. induction pre as [| inp pre IH]; simpl; intros w H Hn.
  - injection H as <-. reflexivity.
  - destruct (turn inp w) as [w1 | |] eqn:Ht; try discriminate.
    pose proof (turns_applied_monotone _ _ _ H) as Hm.
    apply turn_move_number in Ht as Hs.
    destruct (Nat.ltb_spec (move_number w) n); [| lia].
    auto.
Qed.

Lemma at_turn_consistent (b : SudokuBoard) (turns : list TurnInput) (k : nat)
    (w : World) (inp : TurnInput) :
  at_turn b turns k w inp -> consistent w.
Proof.
  intros (H & _ & _). eapply turns_applied_consistent; eauto using start_consistent.
Qed.

(** The match runs the turn it has reached: what [simulate_game]
    returns is decided by that turn and by the turns after it. *)
Lemma at_turn_run (b : SudokuBoard) (turns : list TurnInput) (k : nat)
    (w : World) (inp : TurnInput) :
  at_turn b turns k w inp ->
  simulate_game b turns =
    match turn inp w with
    | Continue w' => while_loop (number_of_moves b) (drop (S k) turns) w'
    | Return w' game_winner => Forfeited (scores (game_state w')) game_winner
    | Raise _ e => Raised e
    end.
Proof.
  intros (H & Hk & Hn). unfold simulate_game.
  rewrite <- (take_drop_middle turns k inp Hk) at 1.
  rewrite (while_loop_skip _ _ _ _ _ H Hn). simpl.
  destruct (Nat.ltb_spec (move_number w) (number_of_moves b)); [reflexivity | lia].
Qed.

Lemma at_turn_next (b : SudokuBoard) (turns : list TurnInput) (k : nat)
    (w w' : World) (inp inp' : TurnInput) :
  at_turn b turns k w inp -> at_turn b turns (S k) w' inp' ->
  turn inp w = Continue w'.
Proof.
  intros (H & Hk & _) (H' & _ & _).
  rewrite (take_S_r _ _ _ Hk), turns_applied_app, H in H'. simpl in H'.
  destruct (turn inp w); congruence.
Qed.

Lemma opponent_cases (gs : GameState) :
  let player := player_number gs in
  (player = 1 /\ 3 - player = 2) \/ (player = 2 /\ 3 - player = 1).
Proof. simpl. destruct (player_number_cases gs) as [-> | ->]; auto. Qed.

Lemma turn_accepted (inp : TurnInput) (w : World) (i j value : Z) :
  proposes inp i j value ->
  move_in (TabooMove i j value) (taboo_moves (game_state w)) = false ->
  accepted (output inp) = true ->
  turn inp w =
    score_branch (player_number (game_state w)) i j value (output inp)
      (taboo_branch i j value (output inp)
         (solve_sudoku w (board (game_state w))
            (rc2f (board (game_state w)) i j) value)).
Proof.
  intros [Hb Hs] Hin Ha. unfold turn, accepted in *.
  rewrite Hb, Hs, Hin. simpl.
  apply andb_true_iff in Ha. destruct Ha as [H1 H2].
  apply negb_true_iff in H1, H2. rewrite H1, H2. reflexivity.
Qed.

Lemma verdict_phrases (out : string) :
  (no_solution_verdict out = true ->
   accepted out = true /\ Text.contains "has no solution" out = true
   /\ Text.contains "The score is" out = false)
  /\ (scored_verdict out = true ->
      accepted out = true /\ Text.contains "has no solution" out = false
      /\ Text.contains "The score is" out = true)
  /\ (unrecognised out = true ->
      accepted out = true /\ Text.contains "has no solution" out = false
      /\ Text.contains "The score is" out = false).
Proof.
  unfold no_solution_verdict, scored_verdict, unrecognised.
  destruct (accepted out), (Text.contains "has no solution" out),
    (Text.contains "The score is" out); simpl; repeat split; auto; discriminate.
Qed.

Lemma while_loop_eq (n : nat) (turns : list TurnInput) (w : World) :
  while_loop n turns w =
    if (move_number w <? n)%nat then
      match turns with
      | [] => Pending w
      | inp :: rest =>
          match turn inp w with
          | Continue w' => while_loop n rest w'
          | Return w' game_winner => Forfeited (scores (game_state w')) game_winner
          | Raise _ e => Raised e
          end
      end
    else after_loop w.
Proof. destruct turns; reflexivity. Qed.

(** The loop ends by its test exactly after the first list of turns that
    takes the counter to the bound. *)
Lemma while_loop_finished (n : nat) (turns : list TurnInput) (w : World)
    (sc : list Z) (win : Z) :
  while_loop n turns w = Finished sc win <->
  exists used rest w',
    turns = used ++ rest
    /\ turns_applied used w = Some w'
    /\ (n <= move_number w')%nat
    /\ (forall k wk, (k < length used)%nat ->
          turns_applied (take k used) w = Some wk -> (move_number wk < n)%nat)
    /\ after_loop w' = Finished sc win.
Proof.
  split.
  - revert w. induction turns as [| inp rest IH]; intros w; rewrite while_loop_eq;
      destruct (Nat.ltb_spec (move_number w) n) as [Hlt | Hge].
    + discriminate.
    + intros H. exists [], [], w. simpl. repeat split; auto. intros; lia.
    + destruct (turn inp w) as [w1 | |] eqn:Ht; try discriminate.
      intros H. apply IH in H.
      destruct H as (used & rest' & w' & -> & Ha & Hn & Hp & Hf).
      exists (inp :: used), rest', w'. simpl. rewrite Ht.
      repeat split; auto.
      intros [| k] wk Hk; simpl.
      * intros [= <-]. exact Hlt.
      * rewrite Ht. apply Hp. lia.
    + intros H. exists [], (inp :: rest), w. simpl. repeat split; auto. intros; lia.
  - intros (used & rest & w' & -> & Ha & Hn & Hp & Hf).
    revert w Ha Hp. induction used as [| inp used IH]; simpl; intros w Ha Hp.
    + injection Ha as <-. rewrite while_loop_eq.
      destruct (Nat.ltb_spec (move_number w) n); [lia | exact Hf].
    + specialize (Hp O w (Nat.lt_0_succ _) eq_refl) as Hlt.
      destruct (Nat.ltb_spec (move_number w) n); [| lia].
      destruct (turn inp w) as [w1 | |] eqn:Ht; try discriminate.
      apply IH; [exact Ha |].
      intros k wk Hk Hw. apply (Hp (S k) wk); [lia |].
      simpl. rewrite Ht. exact Hw.
Qed.

Lemma bounded_by_prefixes (n : nat) (used : list TurnInput) (w w' : World) :
  turns_applied used w = Some w' ->
  (move_number w <= n)%nat ->
  (forall k wk, (k < length used)%nat ->
     turns_applied (take k used) w = Some wk -> (move_number wk < n)%nat) ->
  (move_number w' <= n)%nat.
Proof.
  destruct used as [| x u _] using rev_ind; simpl; intros Ha H0 Hp.
  - injection Ha as <-. exact H0.
  - rewrite turns_applied_app in Ha.
    destruct (turns_applied u w) as [wk |] eqn:Hu; [| discriminate].
    simpl in Ha. destruct (turn x wk) as [w1 | |] eqn:Ht; try discriminate.
    injection Ha as <-.
    assert (move_number wk < n)%nat.
    { apply (Hp (length u)).
      - rewrite length_app. simpl. lia.
      - rewrite take_app_length. exact Hu. }
    apply turn_move_number in Ht. lia.
Qed.

Lemma turns_applied_take (used : list TurnInput) (k : nat) (w w' : World) :
  turns_applied used w = Some w' ->
  exists wk, turns_applied (take k used) w = Some wk.
Proof.
  intros H. rewrite <- (take_drop k used), turns_applied_app in H.
  destruct (turns_applied (take k used) w); [eauto | discriminate].
Qed.

Lemma after_loop_two (w : World) (s0 s1 : Z) :
  scores (game_state w) = [s0; s1] ->
  after_loop w = Finished [s0; s1] (winner_of s0 s1).
Proof.
  intros E. unfold after_loop, winner_of. rewrite E. cbv zeta.
  change (PyList.getitem [s0; s1] 0) with (Some s0).
  change (PyList.getitem [s0; s1] 1) with (Some s1). cbv beta iota.
  destruct (Z.gtb_spec s0 s1); [reflexivity |].
  destruct (Z.eqb_spec s0 s1); [reflexivity |].
  destruct (Z.ltb_spec s0 s1); [reflexivity | lia].
Qed.

Lemma winner_of_cases (s0 s1 win : Z) :
  win = winner_of s0 s1 <->
  (s0 > s1 /\ win = 1) \/ (s0 = s1 /\ win = 0) \/ (s0 < s1 /\ win = 2).
Proof.
  unfold winner_of.
  destruct (Z.gtb_spec s0 s1); [lia |].
  destruct (Z.eqb_spec s0 s1); lia.
Qed.

(** *** The text functions against what they stand for *)

Lemma prefix_app (pat s : string) :
  String.prefix pat s = true <-> exists b, s = (pat ++ b)%string.
Proof.
  revert s. induction pat as [| a p IH]; intros [| c t]; simpl.
  - split; eauto.
  - split; eauto.
  - split; [discriminate | intros [b H]; discriminate].
  - destruct (ascii_dec a c) as [-> | Hne].
    + rewrite IH. split; intros [b H]; exists b; [subst; reflexivity |].
      injection H as ->. reflexivity.
    + split; [discriminate |]. intros [b H]. injection H as <- _. congruence.
Qed.

(** [contains pat s] is the test [pat in s]: [pat] occurs somewhere in
    [s]. *)
Lemma contains_app (pat s : string) :
  Text.contains pat s = true <-> exists a b, s = (a ++ pat ++ b)%string.
Proof.
  induction s as [| c t IH]; cbn [Text.contains]; rewrite orb_true_iff, prefix_app.
  - split.
    + intros [[b H] | H]; [| discriminate]. exists EmptyString, b. exact H.
    + intros (a & b & H). left. destruct a; [eauto | discriminate].
  - rewrite IH. split.
    + intros [[b H] | (a & b & H)].
      * exists EmptyString, b. exact H.
      * exists (String c a), b. simpl. congruence.
    + intros (a & b & H). destruct a as [| c' a]; simpl in H.
      * left. eauto.
      * right. injection H as _ ->. eauto.
Qed.

Example re_search_score_leftmost :
  Text.re_search_score "The score is x. The score is -12. The score is 3"
    = Some "-12"%string.
Proof. reflexivity. Qed.

Example re_search_score_needs_a_number :
  Text.contains "The score is" "The score is unknown" = true
  /\ Text.re_search_score "The score is unknown" = None.
Proof. split; reflexivity. Qed.

Example int_values :
  Text.int "-12" = Some (-12) /\ Text.int "007" = Some 7
  /\ Text.int "-" = None /\ Text.int "1-2" = None /\ Text.int "--3" = None.
Proof. repeat split. Qed.

Example put_in_and_out_of_range :
  put (mkBoard 2 [0; 0; 0; 0]) 1 0 7 = Some (mkBoard 2 [0; 0; 7; 0])
  /\ put (mkBoard 2 [0; 0; 0; 0]) 0 (-1) 7 = Some (mkBoard 2 [0; 0; 0; 7])
  /\ put (mkBoard 2 [0; 0; 0; 0]) 2 0 7 = None.
Proof. repeat split. Qed.

(** A turn that goes past the two local tests calls the oracle, once,
    with the board as it is before the turn. *)
Lemma turn_calls_oracle (inp : TurnInput) (w : World) (i j value : Z) :
  proposes inp i j value ->
  move_in (TabooMove i j value) (taboo_moves (game_state w)) = false ->
  exists w',
    (turn inp w = Continue w' \/ (exists win, turn inp w = Return w' win)
     \/ (exists e, turn inp w = Raise w' e))
    /\ oracle_calls w' =
         oracle_calls w
           ++ [(board (game_state w), rc2f (board (game_state w)) i j, value)].
Proof.
  intros [Hb Hs] Hin. unfold turn. rewrite Hb, Hs, Hin. simpl.
  destruct (Text.contains "Invalid move" _); [eauto 6 |].
  destruct (Text.contains "Illegal move" _); [eauto 6 |].
  unfold score_branch, taboo_branch, end_of_turn, apply_move.
  destruct (Text.contains "has no solution" _);
    destruct (Text.contains "The score is" _); simpl;
    repeat match goal with
           | |- context [match ?x with _ => _ end] => destruct x; simpl
           end;
    eauto 6.
Qed.

End Facts.

(** ** The properties of the match scheduler *)

Import Sudoku Experiment Props Facts.

(** C1. [simulate_game] leaves the loop by its test, and not by a
    forfeit, exactly after the first turn at which the number of scored
    moves applied equals the number of empty cells of the initial board:
    before every turn it runs that number is smaller, and taboo
    recordings are not counted in it.  It then returns the scores with
    winner 1 if scores[0] > scores[1], 0 if they are equal, and 2 if
    scores[0] < scores[1]. *)
Theorem normal_termination (b : SudokuBoard) (turns : list TurnInput)
    (sc : list Z) (win : Z) :
  simulate_game b turns = Finished sc win <->
  exists used rest w,
    turns = used ++ rest
    /\ turns_applied used (start b) = Some w
    /\ scored_moves (moves (game_state w)) = PyList.count (squares b) empty
    /\ (forall k, (k < length used)%nat ->
          exists wk, turns_applied (take k used) (start b) = Some wk
                     /\ (scored_moves (moves (game_state wk))
                         < PyList.count (squares b) empty)%nat)
    /\ exists s0 s1,
         scores (game_state w) = [s0; s1] /\ sc = [s0; s1]
         /\ ((s0 > s1 /\ win = 1) \/ (s0 = s1 /\ win = 0) \/ (s0 < s1 /\ win = 2)).
Proof.
  unfold simulate_game. rewrite while_loop_finished.
  fold (number_of_moves b).
  split.
  - intros (used & rest & w & -> & Ha & Hn & Hp & Hf).
    pose proof (turns_applied_consistent _ _ _ Ha (start_consistent b)) as [Hc Hl].
    destruct (two_scores _ Hl) as (s0 & s1 & Es).
    rewrite (after_loop_two w s0 s1 Es) in Hf. injection Hf as <- Hw.
    exists used, rest, w. repeat split; auto.
    + pose proof (bounded_by_prefixes _ _ _ _ Ha (Nat.le_0_l _) Hp). lia.
    + intros k Hk. destruct (turns_applied_take used k _ _ Ha) as [wk Hwk].
      exists wk. split; [exact Hwk |].
      pose proof (turns_applied_consistent _ _ _ Hwk (start_consistent b)) as [Hck _].
      rewrite <- Hck. eauto.
    + exists s0, s1. repeat split; auto. apply winner_of_cases. auto.
  - intros (used & rest & w & -> & Ha & Hn & Hp & s0 & s1 & Es & -> & Hw).
    pose proof (turns_applied_consistent _ _ _ Ha (start_consistent b)) as [Hc Hl].
    exists used, rest, w. repeat split; auto.
    + lia.
    + intros k wk Hk Hwk. destruct (Hp k Hk) as (wk' & Hwk' & Hlt).
      assert (wk' = wk) as -> by congruence.
      pose proof (turns_applied_consistent _ _ _ Hwk (start_consistent b)) as [Hck _].
      lia.
    + rewrite (after_loop_two w s0 s1 Es). f_equal.
      symmetry. apply winner_of_cases. exact Hw.
Qed.

Lemma normal_termination_witness :
  simulate_game Examples.board_two_empty Examples.short_match = Finished [4; 0] 1.
Proof.
  apply (normal_termination Examples.board_two_empty Examples.short_match [4; 0] 1).
  exists Examples.short_match, [],
    (Examples.state_after Examples.short_match Examples.board_two_empty).
  split; [reflexivity |]. split; [reflexivity |]. split; [reflexivity |].
  split.
  - intros k Hk.
    destruct k as [| [| [| k]]]; [| | | simpl in Hk; lia];
      eexists; (split; [vm_compute; reflexivity | vm_compute; lia]).
  - exists 4, 0. split; [reflexivity |]. split; [reflexivity |].
    left. split; [lia | reflexivity].
Defined.

(** Alternation over the two kinds of turn the scheduler means to go on
    from: when turn k is a scored application or a taboo recording and
    turn k+1 is run, the player of turn k+1 is the opponent of the
    player of turn k. *)
Lemma consecutive_turns_alternate (b : SudokuBoard) (turns : list TurnInput)
    (k : nat) (w w' : World) (inp inp' : TurnInput) :
  at_turn b turns k w inp ->
  at_turn b turns (S k) w' inp' ->
  scored_verdict (output inp) || no_solution_verdict (output inp) = true ->
  player_number (game_state w') = 3 - player_number (game_state w)
  /\ player_number (game_state w') <> player_number (game_state w).
Proof.
  intros Hat Hat' Hv.
  pose proof (at_turn_next _ _ _ _ _ _ _ Hat Hat') as Ht.
  apply turn_continue_shape in Ht.
  destruct Ht as (i & j & value & _ & Em & _).
  assert (E : exists mv, moves (game_state w') = moves (game_state w) ++ [mv]).
  { unfold appended_moves in Em. apply orb_true_iff in Hv.
    destruct Hv as [Hv | Hv].
    - destruct (proj1 (proj2 (verdict_phrases _)) Hv) as (_ & Hn & Hs).
      rewrite Hn, Hs in Em. eauto.
    - destruct (proj1 (verdict_phrases _) Hv) as (_ & Hn & Hs).
      rewrite Hn, Hs in Em. eauto. }
  destruct E as [mv E]. pose proof (player_number_after_append _ _ _ E).
  destruct (player_number_cases (game_state w)); split; lia.
Qed.

Lemma consecutive_turns_alternate_witness :
  player_number (game_state Examples.after_taboo_turn)
    = 3 - player_number (game_state (start Examples.board_4x4))
  /\ player_number (game_state Examples.after_taboo_turn)
     <> player_number (game_state (start Examples.board_4x4)).
Proof.
  apply (consecutive_turns_alternate Examples.board_4x4
           [Examples.taboo_turn; Examples.scored_turn] 0
           (start Examples.board_4x4) Examples.after_taboo_turn
           Examples.taboo_turn Examples.scored_turn).
  - split; [reflexivity | split; [reflexivity | vm_compute; lia]].
  - split; [reflexivity | split; [reflexivity | vm_compute; lia]].
  - reflexivity.
Defined.

(** C2, on the code.  When the oracle text of turn k carries none of the
    four phrases and turn k+1 is run, the game state of turn k+1 is the
    game state of turn k: nothing has been appended to the moves, and
    the player of turn k+1 is the player of turn k again. *)
Theorem unrecognised_turn_repeats_player (b : SudokuBoard) (turns : list TurnInput)
    (k : nat) (w w' : World) (inp inp' : TurnInput) :
  at_turn b turns k w inp ->
  at_turn b turns (S k) w' inp' ->
  unrecognised (output inp) = true ->
  moves (game_state w') = moves (game_state w)
  /\ player_number (game_state w') = player_number (game_state w).
Proof.
  intros Hat Hat' Hv.
  pose proof (at_turn_next _ _ _ _ _ _ _ Hat Hat') as Ht.
  apply turn_continue_shape in Ht.
  destruct Ht as (i & j & value & _ & Em & _).
  destruct (proj2 (proj2 (verdict_phrases _)) Hv) as (_ & Hn & Hs).
  unfold appended_moves in Em. rewrite Hn, Hs, app_nil_r in Em.
  split; [exact Em |]. unfold player_number. rewrite Em. reflexivity.
Qed.

Lemma unrecognised_turn_repeats_player_witness :
  moves (game_state (Examples.state_after [Examples.silent_turn] Examples.board_4x4))
    = moves (game_state (start Examples.board_4x4))
  /\ player_number
       (game_state (Examples.state_after [Examples.silent_turn] Examples.board_4x4))
     = player_number (game_state (start Examples.board_4x4)).
Proof.
  apply (unrecognised_turn_repeats_player Examples.board_4x4
           [Examples.silent_turn; Examples.silent_turn] 0
           (start Examples.board_4x4)
           (Examples.state_after [Examples.silent_turn] Examples.board_4x4)
           Examples.silent_turn Examples.silent_turn).
  - split; [reflexivity | split; [reflexivity | vm_compute; lia]].
  - split; [reflexivity | split; [reflexivity | vm_compute; lia]].
  - reflexivity.
Defined.




(** C4. A turn whose move is not the all-zero triple and equals a taboo
    move of the history ends the match at once: [simulate_game] returns
    with the opponent of the active player as winner, the turn has made
    no call of the oracle (the test comes before the call), and the
    scores returned are the scores before the turn. *)
Theorem taboo_repeat_forfeits (b : SudokuBoard) (turns : list TurnInput) (k : nat)
    (w : World) (inp : TurnInput) (i j value : Z) :
  at_turn b turns k w inp ->
  proposes inp i j value ->
  move_in (TabooMove i j value) (taboo_moves (game_state w)) = true ->
  let player := player_number (game_state w) in
  exists w',
    turn inp w = Return w' (3 - player)
    /\ oracle_calls w' = oracle_calls w
    /\ scores (game_state w') = scores (game_state w)
    /\ simulate_game b turns = Forfeited (scores (game_state w)) (3 - player)
    /\ ((player = 1 /\ 3 - player = 2) \/ (player = 2 /\ 3 - player = 1)).
Proof.
  intros Hat [Hb Hs] Hin player.
  assert (Ht : turn inp w = Return w (3 - player)).
  { unfold turn. rewrite Hb, Hs, Hin. reflexivity. }
  exists w. repeat split; auto; [| apply opponent_cases].
  rewrite (at_turn_run _ _ _ _ _ Hat), Ht. reflexivity.
Qed.

Lemma taboo_repeat_forfeits_witness :
  exists w',
    turn Examples.taboo_turn Examples.after_taboo_turn = Return w' 1
    /\ oracle_calls w' = oracle_calls Examples.after_taboo_turn
    /\ simulate_game Examples.board_4x4 [Examples.taboo_turn; Examples.taboo_turn]
       = Forfeited [0; 0] 1.
Proof.
  destruct (taboo_repeat_forfeits Examples.board_4x4
              [Examples.taboo_turn; Examples.taboo_turn] 1
              Examples.after_taboo_turn Examples.taboo_turn 1 0 1)
    as (w' & H1 & H2 & _ & H4 & _).
  - split; [reflexivity | split; [reflexivity | vm_compute; lia]].
  - split; reflexivity.
  - reflexivity.
  - exists w'. repeat split; assumption.
Defined.

(** C5. A turn whose best move is the all-zero triple (0, 0, 0) ends the
    match at once: [simulate_game] returns with the opponent of the
    active player as winner, the turn has made no call of the oracle,
    and the scores returned are the scores before the turn. *)
Theorem no_move_forfeits (b : SudokuBoard) (turns : list TurnInput) (k : nat)
    (w : World) (inp : TurnInput) :
  at_turn b turns k w inp ->
  best_move inp = (0, 0, 0) ->
  let player := player_number (game_state w) in
  exists w',
    turn inp w = Return w' (3 - player)
    /\ oracle_calls w' = oracle_calls w
    /\ scores (game_state w') = scores (game_state w)
    /\ simulate_game b turns = Forfeited (scores (game_state w)) (3 - player)
    /\ ((player = 1 /\ 3 - player = 2) \/ (player = 2 /\ 3 - player = 1)).
Proof.
  intros Hat Hb player.
  assert (Ht : turn inp w = Return w (3 - player)).
  { unfold turn. rewrite Hb. reflexivity. }
  exists w. repeat split; auto; [| apply opponent_cases].
  rewrite (at_turn_run _ _ _ _ _ Hat), Ht. reflexivity.
Qed.

Lemma no_move_forfeits_witness :
  exists w',
    turn Examples.no_move_turn Examples.after_taboo_turn = Return w' 1
    /\ oracle_calls w' = oracle_calls Examples.after_taboo_turn
    /\ simulate_game Examples.board_4x4 [Examples.taboo_turn; Examples.no_move_turn]
       = Forfeited [0; 0] 1.
Proof.
  destruct (no_move_forfeits Examples.board_4x4
              [Examples.taboo_turn; Examples.no_move_turn] 1
              Examples.after_taboo_turn Examples.no_move_turn)
    as (w' & H1 & H2 & _ & H4 & _).
  - split; [reflexivity | split; [reflexivity | vm_compute; lia]].
  - reflexivity.
  - exists w'. repeat split; assumption.
Defined.

(** C6. A turn whose oracle text says that the sudoku has no solution
    after the move, without a score line, does not end the match: the
    move is appended to the taboo moves (and to the moves), the other
    player is the active player of the next turn, the board is the board
    before the turn, and the scores are the scores before the turn: the
    active player earns 0. *)
Theorem taboo_recording_turn (b : SudokuBoard) (turns : list TurnInput) (k : nat)
    (w : World) (inp : TurnInput) (i j value : Z) :
  at_turn b turns k w inp ->
  proposes inp i j value ->
  move_in (TabooMove i j value) (taboo_moves (game_state w)) = false ->
  no_solution_verdict (output inp) = true ->
  exists w',
    turn inp w = Continue w'
    /\ taboo_moves (game_state w') =
         taboo_moves (game_state w) ++ [TabooMove i j value]
    /\ moves (game_state w') = moves (game_state w) ++ [TabooMove i j value]
    /\ player_number (game_state w') = 3 - player_number (game_state w)
    /\ player_number (game_state w') <> player_number (game_state w)
    /\ board (game_state w') = board (game_state w)
    /\ scores (game_state w') = scores (game_state w)
    /\ move_number w' = move_number w.
Proof.
  intros Hat Hp Hin Hv.
  destruct (at_turn_consistent _ _ _ _ _ Hat) as [_ Hl].
  destruct (two_scores _ Hl) as (s0 & s1 & Es).
  destruct (proj1 (verdict_phrases _) Hv) as (Ha & Hn & Hs).
  pose proof (turn_accepted inp w i j value Hp Hin Ha) as Ht.
  unfold score_branch, taboo_branch, end_of_turn in Ht.
  rewrite Hn, Hs in Ht. simpl in Ht.
  rewrite (add_score_two _ 0 s0 s1) in Ht by (auto using player_number_cases).
  simpl in Ht. rewrite !Z.add_0_r in Ht.
  eexists. split; [exact Ht |]. simpl.
  assert (Hflip : forall gs', moves gs' = moves (game_state w) ++ [TabooMove i j value] ->
            player_number gs' = 3 - player_number (game_state w)
            /\ player_number gs' <> player_number (game_state w)).
  { intros gs' E. pose proof (player_number_after_append _ _ _ E).
    destruct (player_number_cases (game_state w)); split; lia. }
  destruct (Hflip (mkGameState (initial_board (game_state w)) (board (game_state w))
                     (taboo_moves (game_state w) ++ [TabooMove i j value])
                     (moves (game_state w) ++ [TabooMove i j value])
                     (if player_number (game_state w) =? 1 then [s0; s1] else [s0; s1]))
                  eq_refl) as [F1 F2].
  repeat split; auto.
  rewrite Es. destruct (_ =? _); reflexivity.
Qed.

Lemma taboo_recording_turn_witness :
  exists w',
    turn Examples.taboo_turn Examples.after_scored_turn = Continue w'
    /\ taboo_moves (game_state w') = [TabooMove 1 0 1]
    /\ moves (game_state w') = [Move 0 2 3; TabooMove 1 0 1]
    /\ player_number (game_state w') = 1
    /\ board (game_state w') = board (game_state Examples.after_scored_turn)
    /\ scores (game_state w') = [1; 0].
Proof.
  destruct (taboo_recording_turn Examples.board_4x4
              [Examples.scored_turn; Examples.taboo_turn] 1
              Examples.after_scored_turn Examples.taboo_turn 1 0 1)
    as (w' & H1 & H2 & H3 & H4 & _ & H6 & H7 & _).
  - split; [reflexivity | split; [reflexivity | vm_compute; lia]].
  - split; reflexivity.
  - reflexivity.
  - reflexivity.
  - exists w'. repeat split; assumption.
Defined.

(** A score line without a number is the one oracle text that raises:
    ['The score is' in output] holds and the pattern does not match. *)
Lemma malformed_score_line_raises (inp : TurnInput) (w : World) (i j value : Z) :
  proposes inp i j value ->
  move_in (TabooMove i j value) (taboo_moves (game_state w)) = false ->
  accepted (output inp) = true ->
  Text.contains "The score is" (output inp) = true ->
  Text.re_search_score (output inp) = None ->
  exists w', turn inp w = Raise w' (RuntimeError (output inp)).
Proof.
  intros Hp Hin Ha Hs Hr.
  rewrite (turn_accepted inp w i j value Hp Hin Ha).
  unfold score_branch. rewrite Hs, Hr. eauto.
Qed.

(** C7, on the code.  An oracle text that carries none of the four
    phrases raises nothing: the turn goes on to the next turn, and the
    only trace it leaves is the call of the oracle.  The game state is
    the state before the turn, so the same player is asked again, and
    the match goes on with the turns that follow. *)
Theorem unrecognised_output_is_ignored (b : SudokuBoard) (turns : list TurnInput)
    (k : nat) (w : World) (inp : TurnInput) (i j value : Z) :
  at_turn b turns k w inp ->
  proposes inp i j value ->
  move_in (TabooMove i j value) (taboo_moves (game_state w)) = false ->
  unrecognised (output inp) = true ->
  let w' := solve_sudoku w (board (game_state w))
              (rc2f (board (game_state w)) i j) value in
  turn inp w = Continue w'
  /\ game_state w' = game_state w
  /\ (forall w'' e, turn inp w <> Raise w'' e)
  /\ simulate_game b turns = while_loop (number_of_moves b) (drop (S k) turns) w'.
Proof.
  intros Hat Hp Hin Hv w'.
  destruct (at_turn_consistent _ _ _ _ _ Hat) as [_ Hl].
  destruct (two_scores _ Hl) as (s0 & s1 & Es).
  destruct (proj2 (proj2 (verdict_phrases _)) Hv) as (Ha & Hn & Hs).
  assert (Ht : turn inp w = Continue w').
  { rewrite (turn_accepted inp w i j value Hp Hin Ha).
    unfold score_branch, taboo_branch, end_of_turn. rewrite Hn, Hs. simpl.
    rewrite (add_score_two _ 0 s0 s1 _ Es (player_number_cases _)).
    unfold w', with_game_state, solve_sudoku. simpl. do 2 f_equal.
    destruct (game_state w) as [ib bd tb mv sc]. simpl in *. subst sc.
    rewrite !Z.add_0_r. destruct (_ =? _); reflexivity. }
  split; [exact Ht |]. split; [reflexivity |].
  split; [intros w'' e; rewrite Ht; discriminate |].
  rewrite (at_turn_run _ _ _ _ _ Hat), Ht. reflexivity.
Qed.

Lemma unrecognised_output_is_ignored_witness :
  turn Examples.silent_turn (start Examples.board_4x4) =
    Continue (solve_sudoku (start Examples.board_4x4) Examples.board_4x4 2 3)
  /\ (forall w'' e,
        turn Examples.silent_turn (start Examples.board_4x4) <> Raise w'' e)
  /\ simulate_game Examples.board_4x4 [Examples.silent_turn] =
       Pending (solve_sudoku (start Examples.board_4x4) Examples.board_4x4 2 3).
Proof.
  destruct (unrecognised_output_is_ignored Examples.board_4x4 [Examples.silent_turn] 0
              (start Examples.board_4x4) Examples.silent_turn 0 2 3)
    as (H1 & _ & H3 & H4).
  - split; [reflexivity | split; [reflexivity | vm_compute; lia]].
  - split; reflexivity.
  - reflexivity.
  - reflexivity.
  - repeat split; assumption.
Defined.

(** C8, as stated, fails.  On the start position of [main], a first turn
    whose oracle text is [The score is -1] does not end the match and
    takes the sum of the two scores from 0 to -1. *)
Lemma negative_score_lowers_total :
  at_turn Examples.board_4x4 [Examples.negative_turn] 0
    (start Examples.board_4x4) Examples.negative_turn
  /\ reported_score (output Examples.negative_turn) = Some (-1)
  /\ exists w',
       turn Examples.negative_turn (start Examples.board_4x4) = Continue w'
       /\ scores (game_state (start Examples.board_4x4)) = [0; 0]
       /\ scores (game_state w') = [-1; 0]
       /\ total (scores (game_state w'))
          < total (scores (game_state (start Examples.board_4x4))).
Proof.
  split; [split; [reflexivity | split; [reflexivity | vm_compute; lia]] |].
  split; [reflexivity |].
  eexists. split; [vm_compute; reflexivity |].
  repeat split; reflexivity.
Qed.

(** C8, amended.  In a turn that does not end the match, the score of
    the active player changes by exactly the score the oracle reports
    for the turn (0 for a text without a score line, so 0 for a taboo
    recording) and the score of the other player does not change; the
    sum of the two scores changes by that score, and does not decrease
    when that score is not negative. *)
Theorem score_delta_is_reported_score (b : SudokuBoard) (turns : list TurnInput)
    (k : nat) (w w' : World) (inp : TurnInput) :
  at_turn b turns k w inp ->
  turn inp w = Continue w' ->
  exists player_score s0 s1,
    reported_score (output inp) = Some player_score
    /\ scores (game_state w) = [s0; s1]
    /\ scores (game_state w') =
         (if player_number (game_state w) =? 1
          then [s0 + player_score; s1] else [s0; s1 + player_score])
    /\ total (scores (game_state w')) = total (scores (game_state w)) + player_score
    /\ (0 <= player_score ->
        total (scores (game_state w)) <= total (scores (game_state w')))
    /\ (no_solution_verdict (output inp) = true -> player_score = 0).
Proof.
  intros Hat Ht.
  destruct (at_turn_consistent _ _ _ _ _ Hat) as [_ Hl].
  destruct (two_scores _ Hl) as (s0 & s1 & Es).
  apply turn_continue_inv in Ht.
  destruct Ht as (i & j & value & ps & gs2 & _ & _ & _ & Hr & Hs & Ha & _).
  assert (E2 : scores gs2 = [s0; s1]).
  { pose proof (after_taboo_fields i j value (output inp) (game_state w)) as Hf.
    simpl in Hf. destruct Hf as (_ & _ & _ & Ts).
    destruct (Text.contains "The score is" (output inp)).
    - destruct Hs as [Hs _]. apply apply_move_fields in Hs.
      destruct Hs as (_ & _ & _ & As). congruence.
    - destruct Hs as [-> _]. congruence. }
  rewrite (add_score_two _ ps s0 s1 gs2 E2 (player_number_cases _)) in Ha.
  injection Ha as <-. simpl.
  exists ps, s0, s1. rewrite Es.
  assert (Htot : total (if player_number (game_state w) =? 1
                        then [s0 + ps; s1] else [s0; s1 + ps])
                 = total [s0; s1] + ps).
  { destruct (_ =? _); unfold total; simpl; lia. }
  repeat split; auto.
  - lia.
  - intros Hv. destruct (proj1 (verdict_phrases _) Hv) as (_ & _ & Hsc).
    unfold reported_score in Hr. rewrite Hsc in Hr. congruence.
Qed.

Lemma score_delta_is_reported_score_witness :
  exists player_score,
    reported_score (output Examples.scored_turn) = Some player_score
    /\ scores (game_state Examples.after_scored_turn) = [0 + player_score; 0].
Proof.
  destruct (score_delta_is_reported_score Examples.board_4x4 [Examples.scored_turn] 0
              (start Examples.board_4x4) Examples.after_scored_turn
              Examples.scored_turn)
    as (ps & s0 & s1 & H1 & H2 & H3 & _).
  - split; [reflexivity | split; [reflexivity | vm_compute; lia]].
  - reflexivity.
  - exists ps. split; [exact H1 |].
    injection H2 as <- <-. exact H3.
Defined.

(** C9. There is an oracle text with both the phrase [has no solution]
    and a score line for which one turn runs both branches: the move is
    appended to the taboo moves, it is appended to the moves twice (once
    as a taboo move, once as a move), the value is placed on the board,
    and the active player earns the score of the score line.  The same
    holds of every turn that goes on with such a text. *)
Theorem both_verdict_branches_run :
  (exists (out : string) (w w' : World) (i j value player_score : Z),
     Text.contains "has no solution" out = true
     /\ Text.contains "The score is" out = true
     /\ reported_score out = Some player_score
     /\ at_turn Examples.board_4x4 [mkTurn (i, j, value) out] 0 w
          (mkTurn (i, j, value) out)
     /\ turn (mkTurn (i, j, value) out) w = Continue w'
     /\ taboo_moves (game_state w') =
          taboo_moves (game_state w) ++ [TabooMove i j value]
     /\ moves (game_state w') =
          moves (game_state w) ++ [TabooMove i j value; Move i j value]
     /\ put (board (game_state w)) i j value = Some (board (game_state w'))
     /\ squares (board (game_state w)) !! 2%nat = Some empty
     /\ squares (board (game_state w')) !! 2%nat = Some value
     /\ value <> empty
     /\ player_number (game_state w) = 1
     /\ scores (game_state w) = [0; 0]
     /\ scores (game_state w') = [0 + player_score; 0]
     /\ player_score = 3
     /\ move_number w' = S (move_number w))
  /\ (forall (inp : TurnInput) (w w' : World),
        turn inp w = Continue w' ->
        Text.contains "has no solution" (output inp) = true ->
        Text.contains "The score is" (output inp) = true ->
        exists i j value,
          proposes inp i j value
          /\ taboo_moves (game_state w') =
               taboo_moves (game_state w) ++ [TabooMove i j value]
          /\ moves (game_state w') =
               moves (game_state w) ++ [TabooMove i j value; Move i j value]
          /\ put (board (game_state w)) i j value = Some (board (game_state w'))
          /\ move_number w' = S (move_number w)).
Proof.
  split.
  - exists (output Examples.mixed_turn), (start Examples.board_4x4).
    eexists. exists 0, 2, 3, 3.
    split; [reflexivity |]. split; [reflexivity |]. split; [reflexivity |].
    split; [split; [reflexivity | split; [reflexivity | vm_compute; lia]] |].
    split; [vm_compute; reflexivity |].
    repeat split; try reflexivity. discriminate.
  - intros inp w w' Ht Hn Hs. apply turn_continue_shape in Ht.
    destruct Ht as (i & j & value & Hp & Em & Et & Hb & _).
    unfold appended_moves, appended_taboo in *. rewrite Hn, Hs in *.
    destruct Hb as [Hb Hm]. exists i, j, value. repeat split; auto; apply Hp.
Qed.



(** ** Further properties of the scheduler *)

Import MoreProps.

Lemma list_setitem_some (l : list Z) (k v : Z) (n : nat) :
  PyList.index l k = Some n -> PyList.setitem l k v = Some (<[n := v]> l).
Proof. unfold PyList.setitem. intros ->. reflexivity. Qed.

(** X1. A turn whose oracle text holds [Invalid move] or [Illegal move]
    ends the match at once, whatever else the text holds: the opponent
    of the active player wins, the game state returned is the state
    before the turn, and the oracle has been called once, with the board
    of that state. *)
Theorem oracle_rejection_forfeits (b : SudokuBoard) (turns : list TurnInput)
    (k : nat) (w : World) (inp : TurnInput) (i j value : Z) :
  at_turn b turns k w inp ->
  proposes inp i j value ->
  move_in (TabooMove i j value) (taboo_moves (game_state w)) = false ->
  accepted (output inp) = false ->
  let player := player_number (game_state w) in
  exists w',
    turn inp w = Return w' (3 - player)
    /\ game_state w' = game_state w
    /\ oracle_calls w' =
         oracle_calls w
           ++ [(board (game_state w), rc2f (board (game_state w)) i j, value)]
    /\ simulate_game b turns = Forfeited (scores (game_state w)) (3 - player)
    /\ ((player = 1 /\ 3 - player = 2) \/ (player = 2 /\ 3 - player = 1)).
Proof.
  intros Hat [Hb Hs] Hin Ha player.
  set (w1 := solve_sudoku w (board (game_state w))
               (rc2f (board (game_state w)) i j) value).
  assert (Ht : turn inp w = Return w1 (3 - player)).
  { unfold turn, accepted in *. rewrite Hb, Hs, Hin. simpl.
    destruct (Text.contains "Invalid move" _); [reflexivity |].
    destruct (Text.contains "Illegal move" _); [reflexivity | discriminate]. }
  exists w1. repeat split; auto; [| apply opponent_cases].
  rewrite (at_turn_run _ _ _ _ _ Hat), Ht. reflexivity.
Qed.

Lemma oracle_rejection_forfeits_witness :
  exists w',
    turn (mkTurn (0, 2, 9) "Illegal move. The score is 7") (start Examples.board_4x4)
      = Return w' 2
    /\ game_state w' = game_state (start Examples.board_4x4)
    /\ simulate_game Examples.board_4x4 [mkTurn (0, 2, 9) "Illegal move. The score is 7"]
       = Forfeited [0; 0] 2.
Proof.
  destruct (oracle_rejection_forfeits Examples.board_4x4
              [mkTurn (0, 2, 9) "Illegal move. The score is 7"] 0
              (start Examples.board_4x4)
              (mkTurn (0, 2, 9) "Illegal move. The score is 7") 0 2 9)
    as (w' & H1 & H2 & _ & H4 & _).
  - split; [reflexivity | split; [reflexivity | vm_compute; lia]].
  - split; reflexivity.
  - reflexivity.
  - reflexivity.
  - exists w'. repeat split; assumption.
Defined.

(** X2. A turn whose oracle text gives a score line with an integer,
    and no other verdict, for a move whose cell index is in range,
    applies the move: the value is written in that cell and in no other,
    the move is appended to the moves, the taboo moves are unchanged,
    the counter of the loop grows by one, the score of the active player
    grows by the number of the score line, and the other player is the
    next to play. *)
Theorem scored_application (b : SudokuBoard) (turns : list TurnInput)
    (k : nat) (w : World) (inp : TurnInput) (i j value player_score : Z) (n : nat) :
  at_turn b turns k w inp ->
  proposes inp i j value ->
  move_in (TabooMove i j value) (taboo_moves (game_state w)) = false ->
  scored_verdict (output inp) = true ->
  reported_score (output inp) = Some player_score ->
  PyList.index (squares (board (game_state w)))
    (rc2f (board (game_state w)) i j) = Some n ->
  exists w' s0 s1,
    turn inp w = Continue w'
    /\ squares (board (game_state w')) = <[n := value]> (squares (board (game_state w)))
    /\ N (board (game_state w')) = N (board (game_state w))
    /\ moves (game_state w') = moves (game_state w) ++ [Move i j value]
    /\ taboo_moves (game_state w') = taboo_moves (game_state w)
    /\ move_number w' = S (move_number w)
    /\ scores (game_state w) = [s0; s1]
    /\ scores (game_state w') =
         (if player_number (game_state w) =? 1
          then [s0 + player_score; s1] else [s0; s1 + player_score])
    /\ player_number (game_state w') = 3 - player_number (game_state w).
Proof.
  intros Hat Hp Hin Hv Hr Hn.
  destruct (at_turn_consistent _ _ _ _ _ Hat) as [_ Hl].
  destruct (two_scores _ Hl) as (s0 & s1 & Es).
  destruct (proj1 (proj2 (verdict_phrases _)) Hv) as (Ha & Hns & Hs).
  pose proof (turn_accepted inp w i j value Hp Hin Ha) as Ht.
  unfold reported_score in Hr. rewrite Hs in Hr.
  unfold score_branch, taboo_branch, end_of_turn, apply_move, put in Ht.
  rewrite Hns, Hs in Ht. simpl in Ht.
  destruct (Text.re_search_score (output inp)) as [g |]; [| discriminate].
  rewrite Hr in Ht. rewrite (list_setitem_some _ _ _ _ Hn) in Ht. simpl in Ht.
  rewrite (add_score_two _ player_score s0 s1) in Ht
    by (auto using player_number_cases).
  simpl in Ht.
  eexists. exists s0, s1. split; [exact Ht |]. simpl.
  repeat split; auto.
  match goal with
  | |- player_number ?g = _ => apply (player_number_after_append (game_state w) g (Move i j value))
  end.
  reflexivity.
Qed.

Lemma scored_application_witness :
  exists w',
    turn Examples.scored_turn (start Examples.board_4x4) = Continue w'
    /\ squares (board (game_state w')) =
         [1; 2; 3; 4; 0; 4; 0; 2; 2; 1; 0; 3; 0; 0; 0; 1]
    /\ moves (game_state w') = [Move 0 2 3]
    /\ scores (game_state w') = [0 + 1; 0]
    /\ player_number (game_state w') = 2.
Proof.
  destruct (scored_application Examples.board_4x4 [Examples.scored_turn] 0
              (start Examples.board_4x4) Examples.scored_turn 0 2 3 1 2)
    as (w' & s0 & s1 & H1 & H2 & _ & H4 & _ & _ & H7 & H8 & H9).
  - split; [reflexivity | split; [reflexivity | vm_compute; lia]].
  - split; reflexivity.
  - reflexivity.
  - reflexivity.
  - reflexivity.
  - reflexivity.
  - exists w'. injection H7 as <- <-. repeat split; assumption.
Defined.

(** X3. A turn whose oracle text holds [The score is] without a number
    after it (and neither [Invalid move] nor [Illegal move]) ends
    [simulate_game] with RuntimeError, whose message carries the
    text. *)
Theorem malformed_score_line_aborts_match (b : SudokuBoard) (turns : list TurnInput)
    (k : nat) (w : World) (inp : TurnInput) (i j value : Z) :
  at_turn b turns k w inp ->
  proposes inp i j value ->
  move_in (TabooMove i j value) (taboo_moves (game_state w)) = false ->
  accepted (output inp) = true ->
  Text.contains "The score is" (output inp) = true ->
  Text.re_search_score (output inp) = None ->
  simulate_game b turns = Raised (RuntimeError (output inp)).
Proof.
  intros Hat Hp Hin Ha Hs Hr.
  rewrite (at_turn_run _ _ _ _ _ Hat), (turn_accepted inp w i j value Hp Hin Ha).
  unfold score_branch. rewrite Hs, Hr. reflexivity.
Qed.

Lemma malformed_score_line_aborts_match_witness :
  simulate_game Examples.board_4x4 [mkTurn (0, 2, 3) "The score is unknown"]
    = Raised (RuntimeError "The score is unknown").
Proof.
  apply (malformed_score_line_aborts_match Examples.board_4x4
           [mkTurn (0, 2, 3) "The score is unknown"] 0 (start Examples.board_4x4)
           (mkTurn (0, 2, 3) "The score is unknown") 0 2 3).
  - split; [reflexivity | split; [reflexivity | vm_compute; lia]].
  - split; reflexivity.
  - reflexivity.
  - reflexivity.
  - reflexivity.
  - reflexivity.
Defined.

(** *** The score pattern *)

Lemma strip_prefix_app (pat s rest : string) :
  Text.strip_prefix pat s = Some rest <-> s = (pat ++ rest)%string.
Proof.
  revert s. induction pat as [| a p IH]; intros [| c t]; simpl.
  - split; congruence.
  - split; congruence.
  - split; discriminate.
  - destruct (Ascii.eqb_spec a c) as [-> | Hne].
    + rewrite IH. split; congruence.
    + split; [discriminate | congruence].
Qed.

Lemma take_while_split (p : ascii -> bool) (s : string) :
  exists rest,
    s = (Text.take_while p s ++ rest)%string
    /\ match rest with
       | EmptyString => True
       | String c _ => p c = false
       end.
Proof.
  induction s as [| c t (rest & E & Hr)]; simpl.
  - exists EmptyString. auto.
  - destruct (p c) eqn:Hc.
    + exists rest. simpl. split; [congruence | exact Hr].
    + exists (String c t). auto.
Qed.

Lemma take_while_all_score_chars (s : string) :
  all_score_chars (Text.take_while Text.is_score_char s) = true.
Proof.
  induction s as [| c t IH]; simpl; [reflexivity |].
  destruct (Text.is_score_char c) eqn:Hc; simpl; [rewrite Hc; exact IH | reflexivity].
Qed.

Lemma take_while_whole (g rest : string) :
  all_score_chars g = true -> stops_number rest = true ->
  Text.take_while Text.is_score_char (g ++ rest) = g.
Proof.
  intros Hg Hr. induction g as [| c t IH]; simpl in *.
  - destruct rest as [| c r]; simpl in *; [reflexivity |].
    apply negb_true_iff in Hr. rewrite Hr. reflexivity.
  - apply andb_true_iff in Hg. destruct Hg as [-> Hg]. rewrite (IH Hg). reflexivity.
Qed.

Lemma match_score_here_some (s g : string) :
  Text.match_score_here s = Some g <->
  exists rest,
    s = ("The score is " ++ g ++ rest)%string
    /\ g <> EmptyString /\ all_score_chars g = true /\ stops_number rest = true.
Proof.
  unfold Text.match_score_here. split.
  - destruct (Text.strip_prefix _ s) as [t |] eqn:Hp; [| discriminate].
    apply strip_prefix_app in Hp.
    destruct (take_while_split Text.is_score_char t) as (rest & E & Hr).
    pose proof (take_while_all_score_chars t) as Ha.
    destruct (Text.take_while Text.is_score_char t) as [| c u] eqn:Hg; [discriminate |].
    intros [= <-]. exists rest. repeat split; try congruence.
    destruct rest; simpl; [reflexivity | rewrite Hr; reflexivity].
  - intros (rest & -> & Hne & Ha & Hr).
    assert (Hp : Text.strip_prefix "The score is " ("The score is " ++ g ++ rest)
                 = Some (g ++ rest)%string) by (apply strip_prefix_app; reflexivity).
    rewrite Hp, (take_while_whole g rest Ha Hr).
    destruct g; [congruence | reflexivity].
Qed.

Lemma match_score_here_none (s : string) :
  Text.match_score_here s = None <->
  forall c rest, s = ("The score is " ++ String c rest)%string ->
                 Text.is_score_char c = false.
Proof.
  unfold Text.match_score_here. split.
  - intros H c rest ->.
    assert (Hp : Text.strip_prefix "The score is " ("The score is " ++ String c rest)
                 = Some (String c rest)) by (apply strip_prefix_app; reflexivity).
    rewrite Hp in H. simpl in H.
    destruct (Text.is_score_char c); [discriminate | reflexivity].
  - intros H. destruct (Text.strip_prefix _ s) as [t |] eqn:Hp; [| reflexivity].
    apply strip_prefix_app in Hp. destruct t as [| c r]; [reflexivity |].
    simpl. rewrite (H c r Hp). reflexivity.
Qed.

Lemma re_search_score_eq (s : string) :
  Text.re_search_score s =
    match Text.match_score_here s with
    | Some g => Some g
    | None =>
        match s with
        | EmptyString => None
        | String _ t => Text.re_search_score t
        end
    end.
Proof. destruct s; reflexivity. Qed.

Lemma re_search_score_some (s g : string) :
  Text.re_search_score s = Some g ->
  exists a rest,
    s = (a ++ "The score is " ++ g ++ rest)%string
    /\ g <> EmptyString /\ all_score_chars g = true /\ stops_number rest = true
    /\ (forall a1 a2, a = (a1 ++ a2)%string -> a2 <> EmptyString ->
          Text.match_score_here (a2 ++ "The score is " ++ g ++ rest) = None).
Proof.
  revert g. induction s as [| c t IH]; intros g; rewrite re_search_score_eq.
  - destruct (Text.match_score_here "") as [g' |] eqn:Hm; [| discriminate].
    intros [= ->]. apply match_score_here_some in Hm.
    destruct Hm as (rest & E & H). discriminate E.
  - destruct (Text.match_score_here (String c t)) as [g' |] eqn:Hm.
    + intros [= ->]. apply match_score_here_some in Hm.
      destruct Hm as (rest & E & H1 & H2 & H3).
      exists EmptyString, rest. repeat split; auto.
      intros a1 a2 Ea Hne. destruct a1; simpl in Ea; congruence.
    + intros H. apply IH in H.
      destruct H as (a & rest & -> & H1 & H2 & H3 & H4).
      exists (String c a), rest. repeat split; auto.
      intros [| c1 a1] a2 Ea Hne; simpl in Ea.
      * subst a2. exact Hm.
      * injection Ea as _ Ea. exact (H4 a1 a2 Ea Hne).
Qed.

Lemma re_search_score_none (s : string) :
  Text.re_search_score s = None <->
  forall a c rest, s = (a ++ "The score is " ++ String c rest)%string ->
                   Text.is_score_char c = false.
Proof.
  induction s as [| c t IH]; rewrite re_search_score_eq.
  - split.
    + intros _ [| ? ?] c rest E; discriminate E.
    + intros H. destruct (Text.match_score_here "") eqn:Hm; [| reflexivity].
      apply match_score_here_some in Hm. destruct Hm as (rest & E & _).
      discriminate E.
  - destruct (Text.match_score_here (String c t)) as [g |] eqn:Hm.
    + split; [discriminate |]. intros H. exfalso.
      apply match_score_here_some in Hm.
      destruct Hm as (rest & E & Hne & Ha & _).
      destruct g as [| c0 g0]; [congruence |]. simpl in Ha.
      apply andb_true_iff in Ha. destruct Ha as [Hc _].
      specialize (H EmptyString c0 (g0 ++ rest)%string E). congruence.
    + rewrite IH. split.
      * intros H [| c1 a] c0 rest E.
        -- apply (proj1 (match_score_here_none _) Hm c0 rest). exact E.
        -- simpl in E. injection E as _ E. exact (H a c0 rest E).
      * intros H a c0 rest E. apply (H (String c a) c0 rest).
        subst t. reflexivity.
Qed.

(** X4. What [re.search(r'The score is ([-\d]+)', output)] finds.  When
    it matches, the group is a run of digits and minus signs, not empty,
    that follows [The score is ] in the text and is not followed by one
    more such character, and no earlier place of the text matches.  It
    finds nothing exactly when no [The score is ] of the text is
    followed by a digit or a minus sign. *)
Theorem score_pattern_search (s : string) :
  (forall g, Text.re_search_score s = Some g ->
     exists a rest,
       s = (a ++ "The score is " ++ g ++ rest)%string
       /\ g <> EmptyString /\ all_score_chars g = true /\ stops_number rest = true
       /\ (forall a1 a2, a = (a1 ++ a2)%string -> a2 <> EmptyString ->
             Text.match_score_here (a2 ++ "The score is " ++ g ++ rest) = None))
  /\ (Text.re_search_score s = None <->
      forall a c rest, s = (a ++ "The score is " ++ String c rest)%string ->
                       Text.is_score_char c = false).
Proof.
  split; [intros g; apply re_search_score_some | apply re_search_score_none].
Qed.

Lemma re_search_score_contains (s g : string) :
  Text.re_search_score s = Some g -> Text.contains "The score is" s = true.
Proof.
  intros H. apply re_search_score_some in H.
  destruct H as (a & rest & -> & _).
  apply contains_app. exists a, (" " ++ g ++ rest)%string. reflexivity.
Qed.

(** X5. A turn whose score line is followed by a run of digits and
    minus signs that is not an integer (a lone minus sign, a minus sign
    after a digit) ends [simulate_game] with the ValueError of
    [int]. *)
Theorem unparsable_score_aborts_match (b : SudokuBoard) (turns : list TurnInput)
    (k : nat) (w : World) (inp : TurnInput) (i j value : Z) (g : string) :
  at_turn b turns k w inp ->
  proposes inp i j value ->
  move_in (TabooMove i j value) (taboo_moves (game_state w)) = false ->
  accepted (output inp) = true ->
  Text.re_search_score (output inp) = Some g ->
  Text.int g = None ->
  simulate_game b turns = Raised ValueError.
Proof.
  intros Hat Hp Hin Ha Hr Hi.
  rewrite (at_turn_run _ _ _ _ _ Hat), (turn_accepted inp w i j value Hp Hin Ha).
  unfold score_branch.
  rewrite (re_search_score_contains _ _ Hr), Hr, Hi. reflexivity.
Qed.

Lemma unparsable_score_aborts_match_witness :
  simulate_game Examples.board_4x4 [mkTurn (0, 2, 3) "The score is 1-2"]
    = Raised ValueError.
Proof.
  apply (unparsable_score_aborts_match Examples.board_4x4
           [mkTurn (0, 2, 3) "The score is 1-2"] 0 (start Examples.board_4x4)
           (mkTurn (0, 2, 3) "The score is 1-2") 0 2 3 "1-2").
  - split; [reflexivity | split; [reflexivity | vm_compute; lia]].
  - split; reflexivity.
  - reflexivity.
  - reflexivity.
  - reflexivity.
  - reflexivity.
Defined.

(** *** Invariants of a match *)

Lemma turns_applied_invariant (P : World -> Prop) (used : list TurnInput)
    (w0 w : World) :
  P w0 ->
  (forall inp w1 w2, P w1 -> turn inp w1 = Continue w2 -> P w2) ->
  turns_applied used w0 = Some w -> P w.
Proof.
  intros H0 Hstep. revert w0 H0.
  induction used as [| inp rest IH]; simpl; intros w0 H0 H.
  - congruence.
  - destruct (turn inp w0) as [w1 | |] eqn:Ht; try discriminate. eauto.
Qed.

Lemma filter_is_taboo_app (l1 l2 : list move) :
  List.filter is_taboo (l1 ++ l2) = List.filter is_taboo l1 ++ List.filter is_taboo l2.
Proof. apply List.filter_app. Qed.

(** X6. At every point of a match, the taboo moves are the entries of
    class [TabooMove] of the moves, in the same order; no entry of the
    moves is the all-zero triple. *)
Theorem taboo_moves_are_the_taboo_entries (b : SudokuBoard) (used : list TurnInput)
    (w : World) :
  turns_applied used (start b) = Some w ->
  taboo_moves (game_state w) = List.filter is_taboo (moves (game_state w))
  /\ (forall mv, In mv (moves (game_state w)) -> move_eq mv (Move 0 0 0) = false).
Proof.
  apply (turns_applied_invariant
           (fun w => taboo_moves (game_state w)
                       = List.filter is_taboo (moves (game_state w))
                     /\ (forall mv, In mv (moves (game_state w)) ->
                           move_eq mv (Move 0 0 0) = false))).
  - split; [reflexivity | intros mv []].
  - intros inp w1 w2 [E Hz] Ht. apply turn_continue_shape in Ht.
    destruct Ht as (i & j & value & [_ Hs] & Em & Et & _).
    rewrite Em, Et, filter_is_taboo_app, E.
    unfold appended_moves, appended_taboo.
    split.
    + destruct (Text.contains "has no solution" _),
        (Text.contains "The score is" _); reflexivity.
    + intros mv Hin. apply in_app_or in Hin. destruct Hin as [Hin | Hin]; [auto |].
      destruct (Text.contains "has no solution" _),
        (Text.contains "The score is" _); simpl in Hin;
        repeat (destruct Hin as [<- | Hin]; [exact Hs |]); destruct Hin.
Qed.

Lemma taboo_moves_are_the_taboo_entries_witness :
  taboo_moves (game_state (Examples.state_after Examples.short_match
                             Examples.board_two_empty))
  = List.filter is_taboo
      (moves (game_state (Examples.state_after Examples.short_match
                            Examples.board_two_empty))).
Proof.
  apply (taboo_moves_are_the_taboo_entries Examples.board_two_empty
           Examples.short_match). reflexivity.
Defined.

Lemma turns_applied_taboo_grows (used : list TurnInput) (w0 w : World) :
  turns_applied used w0 = Some w ->
  exists ext, taboo_moves (game_state w) = taboo_moves (game_state w0) ++ ext.
Proof.
  revert w0. induction used as [| inp rest IH]; simpl; intros w0 H.
  - injection H as <-. exists []. rewrite app_nil_r. reflexivity.
  - destruct (turn inp w0) as [w1 | |] eqn:Ht; try discriminate.
    apply IH in H. destruct H as [ext E].
    apply turn_continue_shape in Ht. destruct Ht as (i & j & value & _ & _ & Et & _).
    rewrite E, Et, <- app_assoc. eauto.
Qed.

(** X7. A taboo move stays forbidden for the rest of the match: when a
    turn has recorded a move as taboo, a later turn, of either player,
    that proposes the same triple ends the match, and the player of that
    later turn loses. *)
Theorem recorded_taboo_move_stays_forbidden (b : SudokuBoard)
    (turns : list TurnInput) (k k' : nat) (w w' : World) (inp inp' : TurnInput)
    (i j value : Z) :
  at_turn b turns k w inp ->
  proposes inp i j value ->
  Text.contains "has no solution" (output inp) = true ->
  at_turn b turns k' w' inp' ->
  (k < k')%nat ->
  proposes inp' i j value ->
  move_in (TabooMove i j value) (taboo_moves (game_state w')) = true
  /\ simulate_game b turns =
       Forfeited (scores (game_state w')) (3 - player_number (game_state w')).
Proof.
  intros (Hw & Hk & _) [Hb _] Hn Hat' Hlt Hp'.
  assert (Hin : move_in (TabooMove i j value) (taboo_moves (game_state w')) = true).
  { destruct Hat' as (Hw' & _ & _).
    rewrite <- (take_drop (S k) (take k' turns)), take_take in Hw'.
    replace (S k `min` k')%nat with (S k) in Hw' by lia.
    rewrite (take_S_r _ _ _ Hk), turns_applied_app, turns_applied_app, Hw in Hw'.
    simpl in Hw'. destruct (turn inp w) as [w1 | |] eqn:Ht; try discriminate.
    apply turns_applied_taboo_grows in Hw'. destruct Hw' as [ext E].
    apply turn_continue_shape in Ht.
    destruct Ht as (i0 & j0 & v0 & [Hb0 _] & _ & Et & _).
    rewrite Hb in Hb0. injection Hb0 as <- <- <-.
    unfold appended_taboo in Et. rewrite Hn in Et.
    unfold move_in. rewrite E, Et, !existsb_app. simpl.
    unfold move_eq. simpl. rewrite !Z.eqb_refl. simpl.
    rewrite orb_true_r. reflexivity. }
  split; [exact Hin |].
  rewrite (at_turn_run _ _ _ _ _ Hat'). destruct Hp' as [Hb' Hs'].
  unfold turn. rewrite Hb', Hs', Hin. reflexivity.
Qed.

Lemma recorded_taboo_move_stays_forbidden_witness :
  simulate_game Examples.board_4x4
    [Examples.taboo_turn; Examples.scored_turn; Examples.taboo_turn]
  = Forfeited [0; 1] 2.
Proof.
  apply (recorded_taboo_move_stays_forbidden Examples.board_4x4
           [Examples.taboo_turn; Examples.scored_turn; Examples.taboo_turn] 0 2
           (start Examples.board_4x4)
           (Examples.state_after [Examples.taboo_turn; Examples.scored_turn]
              Examples.board_4x4)
           Examples.taboo_turn Examples.taboo_turn 1 0 1).
  - split; [reflexivity | split; [reflexivity | vm_compute; lia]].
  - split; reflexivity.
  - reflexivity.
  - split; [reflexivity | split; [reflexivity | vm_compute; lia]].
  - lia.
  - split; reflexivity.
Defined.

(** X8. Every turn that does not end the match calls the oracle exactly
    once: after the turns of a run, the number of calls is the number of
    turns, and the last call of a turn carries the board as it was
    before that turn. *)
Theorem one_oracle_call_per_turn (b : SudokuBoard) (used : list TurnInput)
    (w : World) :
  turns_applied used (start b) = Some w ->
  length (oracle_calls w) = length used
  /\ (forall inp w', turn inp w = Continue w' ->
        exists i j value,
          proposes inp i j value
          /\ oracle_calls w' =
               oracle_calls w
                 ++ [(board (game_state w), rc2f (board (game_state w)) i j, value)]).
Proof.
  intros H. split.
  - assert (G : forall us w0 w1, turns_applied us w0 = Some w1 ->
                length (oracle_calls w1) = (length (oracle_calls w0) + length us)%nat).
    { induction us as [| inp rest IH]; simpl; intros w0 w1 Hu.
      - injection Hu as <-. lia.
      - destruct (turn inp w0) as [w2 | |] eqn:Ht; try discriminate.
        apply IH in Hu. apply turn_continue_inv in Ht.
        destruct Ht as (i & j & value & ps & gs2 & _ & _ & _ & _ & _ & _ & Ho).
        rewrite Hu, Ho, length_app. simpl. lia. }
    apply G in H. simpl in H. exact H.
  - intros inp w' Ht. apply turn_continue_inv in Ht.
    destruct Ht as (i & j & value & ps & gs2 & Hp & _ & _ & _ & _ & _ & Ho).
    exists i, j, value. auto.
Qed.

Lemma one_oracle_call_per_turn_witness :
  length (oracle_calls (Examples.state_after Examples.short_match
                          Examples.board_two_empty)) = 3%nat.
Proof.
  apply (one_oracle_call_per_turn Examples.board_two_empty Examples.short_match).
  reflexivity.
Defined.

Lemma put_shape (bd bd' : SudokuBoard) (i j value : Z) :
  put bd i j value = Some bd' ->
  N bd' = N bd /\ length (squares bd') = length (squares bd).
Proof.
  unfold put, PyList.setitem.
  destruct (PyList.index _ _); simpl; [| discriminate].
  intros [= <-]. simpl. rewrite length_insert. auto.
Qed.

(** X9. The initial board kept in the game state is never changed, and
    the board played on keeps the dimension and the number of cells of
    the initial board through the whole match. *)
Theorem board_shape_is_kept (b : SudokuBoard) (used : list TurnInput) (w : World) :
  turns_applied used (start b) = Some w ->
  initial_board (game_state w) = b
  /\ N (board (game_state w)) = N b
  /\ length (squares (board (game_state w))) = length (squares b).
Proof.
  apply (turns_applied_invariant
           (fun w => initial_board (game_state w) = b
                     /\ N (board (game_state w)) = N b
                     /\ length (squares (board (game_state w))) = length (squares b))).
  - auto.
  - intros inp w1 w2 (Hi & Hn & Hl) Ht.
    pose proof (turn_continue_shape _ _ _ Ht) as (i & j & value & _ & _ & _ & Hb & _).
    apply turn_continue_inv in Ht.
    destruct Ht as (i0 & j0 & v0 & ps & gs2 & _ & _ & _ & _ & Hs & Ha & _).
    apply add_score_fields in Ha. destruct Ha as (_ & _ & _ & Ei & _).
    assert (Ei2 : initial_board gs2 = initial_board (game_state w1)).
    { unfold after_taboo, apply_move in Hs.
      destruct (Text.contains "The score is" _).
      - destruct Hs as [Hs _].
        destruct (put _ _ _ _); [| discriminate]. injection Hs as <-.
        destruct (Text.contains "has no solution" _); reflexivity.
      - destruct Hs as [-> _].
        destruct (Text.contains "has no solution" _); reflexivity. }
    split; [congruence |].
    destruct (Text.contains "The score is" _).
    + destruct Hb as [Hb _]. apply put_shape in Hb. destruct Hb. split; congruence.
    + destruct Hb as [-> _]. auto.
Qed.

Lemma board_shape_is_kept_witness :
  initial_board (game_state (Examples.state_after Examples.short_match
                               Examples.board_two_empty)) = Examples.board_two_empty
  /\ N (board (game_state (Examples.state_after Examples.short_match
                             Examples.board_two_empty))) = 4
  /\ length (squares (board (game_state (Examples.state_after Examples.short_match
                                           Examples.board_two_empty)))) = 16%nat.
Proof.
  apply (board_shape_is_kept Examples.board_two_empty Examples.short_match).
  reflexivity.
Defined.

(** X10. The sum of the two scores, at any point of a match, is the sum
    of the scores the oracle reported in the turns played so far. *)
Theorem total_is_sum_of_reported_scores (b : SudokuBoard) (used : list TurnInput)
    (w : World) :
  turns_applied used (start b) = Some w ->
  total (scores (game_state w)) = sum_credited used.
Proof.
  assert (G : forall us w0 w1, consistent w0 -> turns_applied us w0 = Some w1 ->
              total (scores (game_state w1))
              = total (scores (game_state w0)) + sum_credited us).
  { induction us as [| inp rest IH]; simpl; intros w0 w1 Hc Hu.
    - injection Hu as <-. lia.
    - destruct (turn inp w0) as [w2 | |] eqn:Ht; try discriminate.
      pose proof (turn_consistent _ _ _ Ht Hc) as Hc2.
      rewrite (IH _ _ Hc2 Hu).
      destruct Hc as [_ Hl]. destruct (two_scores _ Hl) as (s0 & s1 & Es).
      apply turn_continue_inv in Ht.
      destruct Ht as (i & j & value & ps & gs2 & _ & _ & _ & Hr & Hs & Ha & _).
      assert (E2 : scores gs2 = [s0; s1]).
      { pose proof (after_taboo_fields i j value (output inp) (game_state w0)) as Hf.
        simpl in Hf. destruct Hf as (_ & _ & _ & Ts).
        destruct (Text.contains "The score is" (output inp)).
        - destruct Hs as [Hs _]. apply apply_move_fields in Hs.
          destruct Hs as (_ & _ & _ & As). congruence.
        - destruct Hs as [-> _]. congruence. }
      rewrite (add_score_two _ ps s0 s1 gs2 E2 (player_number_cases _)) in Ha.
      injection Ha as <-. simpl. unfold credited. rewrite Hr, Es.
      destruct (_ =? _); unfold total; simpl; lia. }
  intros H. rewrite (G _ _ _ (start_consistent b) H). reflexivity.
Qed.

Lemma total_is_sum_of_reported_scores_witness :
  total (scores (game_state (Examples.state_after Examples.short_match
                               Examples.board_two_empty))) = 4.
Proof.
  apply (total_is_sum_of_reported_scores Examples.board_two_empty Examples.short_match).
  reflexivity.
Defined.

Lemma count_insert_empty (l : list Z) (n : nat) (v : Z) :
  l !! n = Some empty -> v <> empty ->
  S (PyList.count (<[n := v]> l) empty) = PyList.count l empty.
Proof.
  unfold empty. revert n. induction l as [| x t IH]; intros [| n]; simpl;
    try discriminate.
  - intros [= ->] Hv. destruct (Z.eqb_spec v 0); [contradiction | reflexivity].
  - intros Hn Hv. rewrite <- (IH n Hn Hv). destruct (x =? 0); simpl; lia.
Qed.

Lemma put_on_empty_cell (bd bd' : SudokuBoard) (i j value : Z) :
  PyList.getitem (squares bd) (rc2f bd i j) = Some empty ->
  value <> empty ->
  put bd i j value = Some bd' ->
  S (PyList.count (squares bd') empty) = PyList.count (squares bd) empty.
Proof.
  unfold put, PyList.getitem, PyList.setitem.
  destruct (PyList.index _ _) as [n |]; [| discriminate].
  intros Hg Hv [= <-]. simpl. apply count_insert_empty; assumption.
Qed.

(** X11. When every scored move of a run goes to an empty cell and puts
    a value that is not the empty mark, the empty cells of the board and
    the counter of the loop add up to the number of empty cells of the
    initial board; so a match that leaves the loop by its test, with the
    counter at that number, ends on a board without empty cell. *)
Theorem empty_cells_are_counted_down (b : SudokuBoard) (used : list TurnInput)
    (w : World) :
  well_placed used (start b) ->
  turns_applied used (start b) = Some w ->
  (PyList.count (squares (board (game_state w))) empty + move_number w
   = number_of_moves b)%nat
  /\ (move_number w = number_of_moves b ->
      PyList.count (squares (board (game_state w))) empty = 0%nat).
Proof.
  assert (G : forall us w0 w1, well_placed us w0 -> turns_applied us w0 = Some w1 ->
              (PyList.count (squares (board (game_state w1))) empty + move_number w1
               = PyList.count (squares (board (game_state w0))) empty
                 + move_number w0)%nat).
  { induction us as [| inp rest IH]; simpl; intros w0 w1 Hwp Hu.
    - injection Hu as <-. reflexivity.
    - destruct Hwp as [Hf Hwp].
      destruct (turn inp w0) as [w2 | |] eqn:Ht; try discriminate.
      rewrite (IH _ _ Hwp Hu).
      apply turn_continue_shape in Ht.
      destruct Ht as (i & j & value & [Hb _] & _ & _ & Hs & _).
      unfold fills_empty_cell in Hf. rewrite Hb in Hf.
      destruct (Text.contains "The score is" (output inp)).
      + destruct Hs as [Hp ->]. destruct (Hf eq_refl) as [Hg Hv].
        pose proof (put_on_empty_cell _ _ _ _ _ Hg Hv Hp). lia.
      + destruct Hs as [-> ->]. reflexivity. }
  intros Hwp Hu. pose proof (G _ _ _ Hwp Hu) as E. simpl in E.
  unfold number_of_moves. split; lia.
Qed.

Lemma empty_cells_are_counted_down_witness :
  PyList.count
    (squares (board (game_state (Examples.state_after Examples.short_match
                                   Examples.board_two_empty)))) empty = 0%nat.
Proof.
  apply (empty_cells_are_counted_down Examples.board_two_empty Examples.short_match).
  - vm_compute. repeat split; try discriminate.
  - reflexivity.
  - reflexivity.
Defined.

Lemma moves_grow_by_one (us : list TurnInput) (w0 w1 : World) :
  forallb one_verdict us = true ->
  turns_applied us w0 = Some w1 ->
  length (moves (game_state w1)) = (length (moves (game_state w0)) + length us)%nat.
Proof.
  revert w0. induction us as [| inp rest IH]; simpl; intros w0 Hv Hu.
  - injection Hu as <-. lia.
  - apply andb_true_iff in Hv. destruct Hv as [Hv Hrest].
    destruct (turn inp w0) as [w2 | |] eqn:Ht; try discriminate.
    rewrite (IH _ Hrest Hu).
    apply turn_continue_shape in Ht. destruct Ht as (i & j & value & _ & Em & _).
    unfold appended_moves in Em. unfold one_verdict in Hv.
    apply orb_true_iff in Hv. destruct Hv as [Hv | Hv].
    + destruct (proj1 (proj2 (verdict_phrases _)) Hv) as (_ & Hn & Hs).
      rewrite Hn, Hs in Em. rewrite Em, length_app. simpl. lia.
    + destruct (proj1 (verdict_phrases _) Hv) as (_ & Hn & Hs).
      rewrite Hn, Hs in Em. rewrite Em, length_app. simpl. lia.
Qed.

(** X12. As long as the oracle text of every turn gives exactly one of
    the two verdicts the match goes on from (a score line, or no
    solution), turn number k (from 0) finds k entries in the moves, and
    is played by player 1 when k is even and by player 2 when k is odd:
    the first move is played by player 1. *)
Theorem player_of_turn (b : SudokuBoard) (turns : list TurnInput) (k : nat)
    (w : World) (inp : TurnInput) :
  at_turn b turns k w inp ->
  forallb one_verdict (take k turns) = true ->
  length (moves (game_state w)) = k
  /\ player_number (game_state w) = (if Nat.even k then 1 else 2).
Proof.
  intros (Hw & Hk & _) Hv.
  pose proof (moves_grow_by_one _ _ _ Hv Hw) as E. simpl in E.
  rewrite length_take in E.
  assert (Hlt : (k < length turns)%nat) by (eapply lookup_lt_Some; eauto).
  replace (k `min` length turns)%nat with k in E by lia.
  split; [exact E |].
  unfold player_number. rewrite E.
  destruct (Nat.even k) eqn:He.
  - apply Nat.even_spec in He. destruct He as [m ->].
    replace ((2 * m) mod 2)%nat with 0%nat; [reflexivity |].
    symmetry. rewrite Nat.mul_comm. apply Nat.Div0.mod_mul.
  - assert (Ho : Nat.odd k = true) by (rewrite <- Nat.negb_even, He; reflexivity).
    apply Nat.odd_spec in Ho. destruct Ho as [m ->].
    replace ((2 * m + 1) mod 2)%nat with 1%nat; [reflexivity |].
    symmetry. rewrite Nat.add_comm, Nat.mul_comm, Nat.Div0.mod_add. reflexivity.
Qed.

Lemma player_of_turn_witness :
  length (moves (game_state (Examples.state_after
                               [Examples.taboo_turn; Examples.scored_turn]
                               Examples.board_4x4))) = 2%nat
  /\ player_number (game_state (Examples.state_after
                                  [Examples.taboo_turn; Examples.scored_turn]
                                  Examples.board_4x4)) = 1.
Proof.
  apply (player_of_turn Examples.board_4x4
           [Examples.taboo_turn; Examples.scored_turn; Examples.taboo_turn] 2
           (Examples.state_after [Examples.taboo_turn; Examples.scored_turn]
              Examples.board_4x4)
           Examples.taboo_turn).
  - split; [reflexivity | split; [reflexivity | vm_compute; lia]].
  - reflexivity.
Defined.

Lemma turn_raise_inv (inp : TurnInput) (w w' : World) (e : exn) :
  consistent w ->
  turn inp w = Raise w' e ->
  exists i j value,
    proposes inp i j value
    /\ move_in (TabooMove i j value) (taboo_moves (game_state w)) = false
    /\ accepted (output inp) = true
    /\ Text.contains "The score is" (output inp) = true
    /\ ((Text.re_search_score (output inp) = None /\ e = RuntimeError (output inp))
        \/ (exists g, Text.re_search_score (output inp) = Some g
                      /\ Text.int g = None /\ e = ValueError)
        \/ (put (board (game_state w)) i j value = None /\ e = IndexError)).
Proof.
  intros [_ Hl]. destruct (two_scores _ Hl) as (s0 & s1 & Es).
  unfold turn, proposes, accepted.
  destruct (best_move inp) as [[i j] value].
  destruct (move_eq (Move i j value) (Move 0 0 0)) eqn:Hs; simpl; [discriminate |].
  destruct (move_in _ _) eqn:Ht; [discriminate |].
  destruct (Text.contains "Invalid move" _) eqn:H1; [discriminate |].
  destruct (Text.contains "Illegal move" _) eqn:H2; [discriminate |].
  unfold score_branch, taboo_branch, end_of_turn, apply_move.
  destruct (Text.contains "The score is" _) eqn:H4.
  - intros H. exists i, j, value. do 4 (split; [auto |]).
    destruct (Text.re_search_score _) as [g |]; [| injection H as _ <-; auto].
    destruct (Text.int g) as [ps |] eqn:Hi; [| injection H as _ <-; eauto 6].
    right. right.
    destruct (Text.contains "has no solution" _); simpl in H;
      (destruct (put (board (game_state w)) i j value) as [bd |];
       [| injection H as _ <-; auto]);
      exfalso; simpl in H;
      match type of H with
      | context [add_score ?p ?s ?g] =>
          rewrite (add_score_two p s s0 s1 g Es (player_number_cases _)) in H
      end; discriminate H.
  - intros H. exfalso.
    destruct (Text.contains "has no solution" _); simpl in H;
      match type of H with
      | context [add_score ?p ?s ?g] =>
          rewrite (add_score_two p s s0 s1 g Es (player_number_cases _)) in H
      end; discriminate H.
Qed.

(** Where the result of the loop comes from. *)
Lemma while_loop_origin (b : SudokuBoard) (rest pre : list TurnInput) (w : World) :
  turns_applied pre (start b) = Some w ->
  match while_loop (number_of_moves b) rest w with
  | Finished sc win =>
      exists w', consistent w' /\ after_loop w' = Finished sc win
  | Forfeited sc win =>
      exists k w1 inp w',
        at_turn b (pre ++ rest) k w1 inp
        /\ turn inp w1 = Return w' win /\ sc = scores (game_state w')
  | Raised e =>
      exists k w1 inp w',
        at_turn b (pre ++ rest) k w1 inp /\ turn inp w1 = Raise w' e
  | Pending _ => True
  end.
Proof.
  revert pre w. induction rest as [| inp rest IH]; intros pre w Hw;
    rewrite while_loop_eq;
    pose proof (turns_applied_consistent _ _ _ Hw (start_consistent b)) as Hc;
    destruct (Nat.ltb_spec (move_number w) (number_of_moves b)) as [Hlt | Hge].
  - exact I.
  - destruct Hc as [Hm Hl]. destruct (two_scores _ Hl) as (s0 & s1 & Es).
    rewrite (after_loop_two w s0 s1 Es). exists w.
    split; [split; assumption | apply after_loop_two; exact Es].
  - assert (Hat : at_turn b (pre ++ inp :: rest) (length pre) w inp).
    { split; [rewrite take_app_length; exact Hw |].
      split; [apply list_lookup_middle; reflexivity | exact Hlt]. }
    destruct (turn inp w) as [w2 | w2 win | w2 e] eqn:Ht.
    + assert (Hw2 : turns_applied (pre ++ [inp]) (start b) = Some w2).
      { rewrite turns_applied_app, Hw. simpl. rewrite Ht. reflexivity. }
      specialize (IH (pre ++ [inp]) w2 Hw2).
      rewrite <- app_assoc in IH. exact IH.
    + exists (length pre), w, inp, w2. auto.
    + exists (length pre), w, inp, w2. auto.
  - destruct Hc as [Hm Hl]. destruct (two_scores _ Hl) as (s0 & s1 & Es).
    rewrite (after_loop_two w s0 s1 Es). exists w.
    split; [split; assumption | apply after_loop_two; exact Es].
Qed.

Lemma turn_return_inv (inp : TurnInput) (w w' : World) (win : Z) :
  turn inp w = Return w' win ->
  win = 3 - player_number (game_state w) /\ game_state w' = game_state w.
Proof.
  unfold turn. destruct (best_move inp) as [[i j] value].
  destruct (negb _); [| intros [= <- <-]; auto].
  destruct (move_in _ _); [intros [= <- <-]; auto |].
  destruct (Text.contains "Invalid move" _); [intros [= <- <-]; auto |].
  destruct (Text.contains "Illegal move" _); [intros [= <- <-]; auto |].
  unfold score_branch, end_of_turn.
  repeat match goal with
         | |- context [match ?x with _ => _ end] => destruct x
         end; discriminate.
Qed.

(** X13. What [simulate_game] can give back.  A match that leaves the
    loop by its test returns two scores and a winner that is 0, 1 or 2,
    fixed by the comparison of the scores; a forfeit returns the two
    scores as they stand and winner 1 or 2, the opponent of the player
    of the turn; an exception comes from a turn with a score line, and
    is the RuntimeError of a score line without number, the ValueError
    of [int], or the IndexError of a cell index out of range.  The score
    list is never indexed out of range and the winner is never left
    unset. *)
Theorem results_of_a_match (b : SudokuBoard) (turns : list TurnInput) :
  match simulate_game b turns with
  | Finished sc win =>
      exists s0 s1,
        sc = [s0; s1]
        /\ ((s0 > s1 /\ win = 1) \/ (s0 = s1 /\ win = 0) \/ (s0 < s1 /\ win = 2))
  | Forfeited sc win =>
      exists k w inp,
        at_turn b turns k w inp
        /\ sc = scores (game_state w) /\ length sc = 2%nat
        /\ win = 3 - player_number (game_state w) /\ (win = 1 \/ win = 2)
  | Raised e =>
      exists k w inp i j value,
        at_turn b turns k w inp
        /\ proposes inp i j value
        /\ Text.contains "The score is" (output inp) = true
        /\ ((Text.re_search_score (output inp) = None
             /\ e = RuntimeError (output inp))
            \/ (exists g, Text.re_search_score (output inp) = Some g
                          /\ Text.int g = None /\ e = ValueError)
            \/ (put (board (game_state w)) i j value = None /\ e = IndexError))
  | Pending _ => True
  end.
Proof.
  pose proof (while_loop_origin b turns [] (start b) eq_refl) as H.
  simpl in H. fold (simulate_game b turns) in H.
  destruct (simulate_game b turns) as [sc win | sc win | e | w].
  - destruct H as (w' & [_ Hl] & Hf).
    destruct (two_scores _ Hl) as (s0 & s1 & Es).
    rewrite (after_loop_two w' s0 s1 Es) in Hf. injection Hf as <- <-.
    exists s0, s1. split; [reflexivity |]. apply winner_of_cases. reflexivity.
  - destruct H as (k & w1 & inp & w' & Hat & Ht & ->).
    apply turn_return_inv in Ht. destruct Ht as [-> Eg].
    destruct (at_turn_consistent _ _ _ _ _ Hat) as [_ Hl].
    exists k, w1, inp. rewrite Eg.
    split; [exact Hat |]. split; [reflexivity |]. split; [exact Hl |].
    split; [reflexivity |].
    destruct (player_number_cases (game_state w1)) as [-> | ->]; auto.
  - destruct H as (k & w1 & inp & w' & Hat & Ht).
    apply turn_raise_inv in Ht; [| eapply at_turn_consistent; eauto].
    destruct Ht as (i & j & value & Hp & _ & _ & Hs & Hcases).
    exists k, w1, inp, i, j, value. auto.
  - exact I.
Qed.

(** *** Reading back a printed score *)










(** *** The lock at the end of a turn *)

(** X15. At the end of the events of a turn the scheduler has let go of
    the lock, except when [process.terminate()] or [lock.release()]
    raises: the [try] block has no [finally], and the lock then stays
    held after the turn.  In every case the slot is reset first and read
    last, once. *)
Theorem lock_after_turn (raises_at : option nat) :
  let es := Isolation.turn_events raises_at in
  (Isolation.holds_lock false es = true <->
   raises_at = Some 3%nat \/ raises_at = Some 4%nat)
  /\ head es = Some Isolation.ResetSlot
  /\ last es = Some Isolation.ReadSlot
  /\ length (List.filter (Isolation.event_eqb Isolation.ReadSlot) es) = 1%nat.
Proof.
  assert (Hcase : raises_at = Some 0%nat \/ raises_at = Some 1%nat
                  \/ raises_at = Some 2%nat \/ raises_at = Some 3%nat
                  \/ raises_at = Some 4%nat
                  \/ (Isolation.turn_events raises_at = Isolation.turn_events None
                      /\ raises_at <> Some 3%nat /\ raises_at <> Some 4%nat)).
  { destruct raises_at as [[| [| [| [| [| n]]]]] |]; auto 6.
    - do 5 right. split; [| split; discriminate].
      unfold Isolation.turn_events.
      rewrite firstn_all2; [reflexivity | simpl; lia].
    - do 5 right. split; [reflexivity | split; discriminate]. }
  destruct Hcase as [-> | [-> | [-> | [-> | [-> | (E & H3 & H4)]]]]]; cbv zeta;
    try rewrite E; simpl;
    (split; [| repeat split]);
    split; intros H; try discriminate H; auto;
    destruct H as [H | H]; try discriminate H; try contradiction;
    injection H as H; discriminate H.
Qed.

(** ** The series of matches of [main] *)

Lemma games_of_round_in (times : list string) (nr : nat) (s : Main.Sides)
    (t : Main.Trial) :
  In t (Main.games_of_round times nr s) -> Main.sides t = s /\ In (Main.time t) times.
Proof.
  unfold Main.games_of_round. rewrite in_flat_map.
  intros (x & Hx & Hr). apply repeat_spec in Hr. subst t. auto.
Qed.

Lemma games_of_round_length (times : list string) (nr : nat) (s : Main.Sides) :
  length (Main.games_of_round times nr s) = (length times * nr)%nat.
Proof.
  unfold Main.games_of_round. induction times as [| t ts IH]; simpl; [reflexivity |].
  rewrite length_app, repeat_length, IH. reflexivity.
Qed.

Lemma rounds_two (times : list string) (nr : nat) (s : Main.Sides) :
  Main.rounds 2 times nr s
  = Main.games_of_round times nr s ++ Main.games_of_round times nr (Main.swap s).
Proof. simpl. rewrite app_nil_r. reflexivity. Qed.

Lemma trials_with_in (opps times : list string) (nr : nat) (first : string)
    (t : Main.Trial) :
  In t (Main.trials_with opps times nr first) ->
  exists opponent,
    In opponent opps /\ In (Main.time t) times
    /\ (Main.sides t = Main.sides_against first opponent
        \/ Main.sides t = Main.swap (Main.sides_against first opponent)).
Proof.
  unfold Main.trials_with. rewrite in_flat_map. intros (opp & Ho & Hr).
  rewrite rounds_two in Hr. apply in_app_or in Hr.
  exists opp. destruct Hr as [Hr | Hr]; apply games_of_round_in in Hr;
    destruct Hr as [-> Ht]; auto.
Qed.

Lemma trials_with_length (opps times : list string) (nr : nat) (first : string) :
  length (Main.trials_with opps times nr first)
  = (length opps * (2 * (length times * nr)))%nat.
Proof.
  unfold Main.trials_with. induction opps as [| o os IH]; [reflexivity |].
  cbn [flat_map]. rewrite length_app, IH, rounds_two, length_app,
    !games_of_round_length. simpl. lia.
Qed.

(** X16. In every match of the series of [main] the two labels of the
    row name the two players in the order in which they play: either the
    first player is the agent of [--first] and the second the opponent,
    or the other way round, with the labels exchanged likewise.  For
    each opponent the series holds the second order as often as the
    first: 2 opponents, 2 orders, 4 times and 20 matches each, 320
    matches in all. *)
Theorem labels_follow_the_players (first : string) :
  (forall t, In t (Main.trials first) ->
     exists opponent label,
       In opponent Main.opponents
       /\ label = Format.remove_all ".sudokuai" opponent
       /\ In (Main.time t) Main.time_args
       /\ ((Main.player1 (Main.sides t) = (first ++ ".sudokuai")%string
            /\ Main.player_1 (Main.sides t) = first
            /\ Main.player2 (Main.sides t) = opponent
            /\ Main.player_2 (Main.sides t) = label)
           \/ (Main.player1 (Main.sides t) = opponent
               /\ Main.player_1 (Main.sides t) = label
               /\ Main.player2 (Main.sides t) = (first ++ ".sudokuai")%string
               /\ Main.player_2 (Main.sides t) = first)))
  /\ Main.trials first =
       flat_map
         (fun opponent =>
            Main.games_of_round Main.time_args Main.nr_of_tests
              (Main.sides_against first opponent)
            ++ Main.games_of_round Main.time_args Main.nr_of_tests
                 (Main.swap (Main.sides_against first opponent)))
         Main.opponents
  /\ length (Main.trials first) = 320%nat.
Proof.
  split; [| split].
  - intros t Ht. apply trials_with_in in Ht.
    destruct Ht as (opp & Ho & Htime & [E | E]);
      exists opp, (Format.remove_all ".sudokuai" opp);
      (split; [exact Ho |]); (split; [reflexivity |]); (split; [exact Htime |]);
      rewrite E; simpl; auto.
  - unfold Main.trials, Main.trials_with, Main.opponents. cbn [flat_map].
    rewrite !rounds_two. reflexivity.
  - unfold Main.trials. rewrite trials_with_length. reflexivity.
Qed.

Lemma count_char_app (c : ascii) (s1 s2 : string) :
  Format.count_char c (s1 ++ s2)
  = (Format.count_char c s1 + Format.count_char c s2)%nat.
Proof. induction s1 as [| a t IH]; simpl; [reflexivity | rewrite IH; lia]. Qed.

Lemma str_int_no_comma (z : Z) : Format.count_char "," (Format.str_int z) = 0%nat.
Proof.
  assert (G : forall d, Format.count_char "," (NilEmpty.string_of_uint d) = 0%nat).
  { induction d; simpl; auto. }
  destruct z as [| p | p]; [reflexivity | |]; unfold Format.str_int; simpl;
    unfold NilZero.string_of_uint; pose proof (G (Pos.to_uint p)) as Hg;
    destruct (Pos.to_uint p); simpl in *; auto.
Qed.

Lemma row_commas (board_type : option string) (t : Main.Trial) (s0 s1 win : Z) :
  Format.count_char "," (Main.row board_type t [s0; s1] win)
  = (6 + Format.count_char "," (Main.player_1 (Main.sides t))
       + Format.count_char "," (Main.player_2 (Main.sides t))
       + Format.count_char "," (Main.board_text board_type)
       + Format.count_char "," (Main.time t))%nat.
Proof.
  unfold Main.row, Format.str_list. simpl Format.join. simpl map.
  rewrite !count_char_app, !str_int_no_comma. simpl.
  rewrite ?str_int_no_comma. lia.
Qed.

Lemma returned_scores (b : SudokuBoard) (turns : list TurnInput) (sc : list Z)
    (win : Z) :
  simulate_game b turns = Finished sc win \/ simulate_game b turns = Forfeited sc win ->
  exists s0 s1, sc = [s0; s1].
Proof.
  pose proof (while_loop_origin b turns [] (start b) eq_refl) as H.
  simpl in H. fold (simulate_game b turns) in H.
  intros [E | E]; rewrite E in H.
  - destruct H as (w' & [_ Hl] & Hf).
    destruct (two_scores _ Hl) as (s0 & s1 & Es).
    rewrite (after_loop_two w' s0 s1 Es) in Hf. injection Hf as <- _. eauto.
  - destruct H as (k & w1 & inp & w' & Hat & Ht & ->).
    apply turn_return_inv in Ht. destruct Ht as [_ Eg].
    destruct (at_turn_consistent _ _ _ _ _ Hat) as [_ Hl].
    rewrite Eg. apply two_scores. exact Hl.
Qed.

(** The matches of a list of trials: one row for each match that
    returns, in order, up to the first match that does not return. *)
Lemma play_trials_rows (board : SudokuBoard) (board_type : option string)
    (script : nat -> list TurnInput) (ts : list Main.Trial) (n : nat)
    (outfile lines : list string) (st : Main.status) :
  Main.play_trials board board_type script n ts outfile = (lines, st) ->
  exists rows,
    lines = outfile ++ rows
    /\ (length rows <= length ts)%nat
    /\ (forall m t, (m < length rows)%nat -> ts !! m = Some t ->
          exists sc win,
            (simulate_game board (script (n + m)%nat) = Finished sc win
             \/ simulate_game board (script (n + m)%nat) = Forfeited sc win)
            /\ rows !! m = Some (Main.row board_type t sc win))
    /\ match st with
       | Main.Completed => length rows = length ts
       | Main.Aborted e =>
           simulate_game board (script (n + length rows)%nat) = Raised e
       | Main.Waiting =>
           exists w, simulate_game board (script (n + length rows)%nat) = Pending w
       end.
Proof.
  revert n outfile. induction ts as [| t rest IH]; simpl; intros n outfile H.
  - injection H as <- <-. exists []. rewrite app_nil_r.
    repeat split; auto. intros m t Hm. simpl in Hm. lia.
  - destruct (simulate_game board (script n)) as [sc win | sc win | e | w] eqn:Eg.
    1, 2: apply IH in H; destruct H as (rows & -> & Hlen & Hrows & Hst);
      exists (Main.row board_type t sc win :: rows);
      (split; [rewrite <- app_assoc; reflexivity |]);
      (split; [simpl; lia |]);
      (split;
       [intros [| m] t' Hm Ht'; simpl in *;
        [injection Ht' as <-; rewrite Nat.add_0_r; exists sc, win; auto
        | replace (n + S m)%nat with (S n + m)%nat by lia; apply Hrows; [lia | exact Ht']]
       |]);
      simpl; replace (n + S (length rows))%nat with (S n + length rows)%nat by lia;
      destruct st; auto.
    + injection H as <- <-. exists []. rewrite app_nil_r, Nat.add_0_r. simpl.
      repeat split; auto; [lia | intros m t' Hm; lia].
    + injection H as <- <-. exists []. rewrite app_nil_r, Nat.add_0_r. simpl.
      repeat split; eauto; [lia | intros m t' Hm; lia].
Qed.

(** X17. What [main] writes.  The header is appended to the file, then
    one row for each match that returns, in the order of the series; an
    exception of a match leaves [main] at once, with the rows of the
    matches before it written and no other.  When all the matches
    return, 320 rows follow the header. *)
Theorem rows_of_the_series (first : string) (board : SudokuBoard)
    (board_type : option string) (script : nat -> list TurnInput)
    (outfile lines : list string) (st : Main.status) :
  Main.experiment first board board_type script outfile = (lines, st) ->
  exists rows,
    lines = outfile ++ Main.header :: rows
    /\ (length rows <= 320)%nat
    /\ (forall m t, (m < length rows)%nat -> Main.trials first !! m = Some t ->
          exists sc win,
            (simulate_game board (script m) = Finished sc win
             \/ simulate_game board (script m) = Forfeited sc win)
            /\ rows !! m = Some (Main.row board_type t sc win))
    /\ match st with
       | Main.Completed => length rows = 320%nat
       | Main.Aborted e => simulate_game board (script (length rows)) = Raised e
       | Main.Waiting =>
           exists w, simulate_game board (script (length rows)) = Pending w
       end.
Proof.
  unfold Main.experiment. intros H. apply play_trials_rows in H.
  destruct H as (rows & -> & Hlen & Hrows & Hst).
  assert (L : length (Main.trials first) = 320%nat).
  { unfold Main.trials. rewrite trials_with_length. reflexivity. }
  rewrite L in *. exists rows.
  split; [rewrite <- app_assoc; reflexivity |].
  split; [exact Hlen |]. split; [exact Hrows | exact Hst].
Qed.

(** X18. Every row [main] writes holds one comma more than the header
    has columns for: the header [Player1,Player2,Board,Time,Score,Winner]
    has 5 commas, and a row has 6 besides those of the label of
    [--first] and of the board name, because the two scores are written
    as a list [[a, b]]. *)
Theorem row_has_one_more_field (first : string) (board : SudokuBoard)
    (board_type : option string) (script : nat -> list TurnInput)
    (outfile lines : list string) (st : Main.status) :
  Main.experiment first board board_type script outfile = (lines, st) ->
  Format.count_char "," Main.header = 5%nat
  /\ exists rows,
       lines = outfile ++ Main.header :: rows
       /\ Forall (fun r =>
                    Format.count_char "," r
                    = (6 + Format.count_char "," first
                         + Format.count_char "," (Main.board_text board_type))%nat)
            rows.
Proof.
  unfold Main.experiment. intros H. apply play_trials_rows in H.
  destruct H as (rows & -> & Hlen & Hrows & _).
  split; [reflexivity |]. exists rows.
  split; [rewrite <- app_assoc; reflexivity |].
  apply Forall_lookup_2. intros m r Hr.
  assert (Hm : (m < length rows)%nat) by (eapply lookup_lt_Some; eauto).
  destruct (lookup_lt_is_Some_2 (Main.trials first) m ltac:(lia)) as [t Ht].
  destruct (Hrows m t Hm Ht) as (sc & win & Hg & Hrow).
  rewrite Hr in Hrow. injection Hrow as ->.
  destruct (returned_scores _ _ _ _ Hg) as (s0 & s1 & ->).
  rewrite row_commas.
  assert (Hin : In t (Main.trials first)).
  { apply list_elem_of_In. eapply list_elem_of_lookup_2. exact Ht. }
  apply trials_with_in in Hin.
  destruct Hin as (opp & Ho & Htime & Hs).
  assert (Ct : Format.count_char "," (Main.time t) = 0%nat).
  { simpl in Htime.
    destruct Htime as [<- | [<- | [<- | [<- | []]]]]; reflexivity. }
  assert (Co : Format.count_char "," (Format.remove_all ".sudokuai" opp) = 0%nat).
  { simpl in Ho. destruct Ho as [<- | [<- | []]]; reflexivity. }
  destruct Hs as [-> | ->]; simpl; rewrite Ct, Co; lia.
Qed.

Lemma rows_of_the_series_witness :
  exists rows,
    fst (Main.experiment "random_player" Examples.board_4x4 None
           (fun _ => [Examples.no_move_turn]) ["old line"%string])
    = ["old line"%string] ++ Main.header :: rows
    /\ length rows = 320%nat
    /\ rows !! 0%nat
       = Some "random_player, greedy_player, None, 0.1, [0, 0], 2"%string.
Proof.
  destruct (rows_of_the_series "random_player" Examples.board_4x4 None
              (fun _ => [Examples.no_move_turn]) ["old line"%string]
              (fst (Main.experiment "random_player" Examples.board_4x4 None
                      (fun _ => [Examples.no_move_turn]) ["old line"%string]))
              Main.Completed)
    as (rows & H1 & _ & H3 & H4).
  - vm_compute. reflexivity.
  - exists rows. split; [exact H1 |]. split; [exact H4 |].
    destruct (H3 0%nat
                (Main.mkTrial (Main.sides_against "random_player" "greedy_player.sudokuai")
                   "0.1"))
      as (sc & win & Hg & Hr).
    + lia.
    + reflexivity.
    + rewrite Hr. destruct Hg as [Hg | Hg]; vm_compute in Hg; [discriminate Hg |].
      injection Hg as <- <-. reflexivity.
Defined.

Lemma row_has_one_more_field_witness :
  Format.count_char "," Main.header = 5%nat
  /\ exists rows,
       fst (Main.experiment "random_player" Examples.board_4x4
              (Some "boards/easy.txt"%string)
              (fun _ => [Examples.no_move_turn]) [])
       = [] ++ Main.header :: rows
       /\ Forall (fun r => Format.count_char "," r = 6%nat) rows.
Proof.
  apply (row_has_one_more_field "random_player" Examples.board_4x4
           (Some "boards/easy.txt"%string) (fun _ => [Examples.no_move_turn]) []
           (fst (Main.experiment "random_player" Examples.board_4x4
                   (Some "boards/easy.txt"%string)
                   (fun _ => [Examples.no_move_turn]) []))
           Main.Completed).
  vm_compute. reflexivity.
Defined.

(** X19. On a board without empty cell [simulate_game] plays no turn:
    whatever the players and the oracle would do, it returns the scores
    [[0, 0]] and winner 0, a draw. *)
Theorem full_board_is_a_draw (b : SudokuBoard) (turns : list TurnInput) :
  PyList.count (squares b) empty = 0%nat ->
  simulate_game b turns = Finished [0; 0] 0.
Proof.
  intros H. unfold simulate_game, number_of_moves. rewrite H, while_loop_eq.
  reflexivity.
Qed.

Lemma full_board_is_a_draw_witness :
  simulate_game (mkBoard 2 [1; 2; 2; 1]) [Examples.scored_turn] = Finished [0; 0] 0.
Proof.
  apply (full_board_is_a_draw (mkBoard 2 [1; 2; 2; 1]) [Examples.scored_turn]).
  reflexivity.
Defined.

Lemma turn_without_score_line (inp : TurnInput) (w w' : World) :
  consistent w ->
  no_score_line inp = true ->
  turn inp w = Continue w' ->
  move_number w' = move_number w
  /\ board (game_state w') = board (game_state w)
  /\ scores (game_state w') = scores (game_state w).
Proof.
  intros [_ Hl] Hn Ht. destruct (two_scores _ Hl) as (s0 & s1 & Es).
  unfold no_score_line in Hn. apply negb_true_iff in Hn.
  pose proof (turn_continue_shape _ _ _ Ht) as (i & j & value & _ & _ & _ & Hb & _).
  apply turn_continue_inv in Ht.
  destruct Ht as (i0 & j0 & v0 & ps & gs2 & _ & _ & _ & Hr & Hs & Ha & _).
  unfold reported_score in Hr. rewrite Hn in Hr, Hs, Hb. injection Hr as <-.
  destruct Hb as [Eb Em]. destruct Hs as [-> _].
  pose proof (after_taboo_fields i0 j0 v0 (output inp) (game_state w)) as Hf.
  simpl in Hf. destruct Hf as (_ & _ & Tb & Ts).
  rewrite (add_score_two (player_number (game_state w)) 0 s0 s1 _
             (eq_trans Ts Es) (player_number_cases (game_state w))) in Ha.
  injection Ha as <-. simpl. rewrite Es, !Z.add_0_r.
  split; [exact Em |]. split; [exact Tb |]. destruct (_ =? _); reflexivity.
Qed.

(** X20. Turns without a score line never bring a match nearer to its
    end: on a board with an empty cell, after any number of turns that
    go on and carry no score line (taboo recordings, texts that are not
    understood), the match is still waiting for a turn, with the counter
    of the loop at 0, the board as at the start and the scores
    [[0, 0]]. *)
Theorem turns_without_score_never_finish (b : SudokuBoard) (turns : list TurnInput)
    (w : World) :
  (0 < PyList.count (squares b) empty)%nat ->
  turns_applied turns (start b) = Some w ->
  forallb no_score_line turns = true ->
  simulate_game b turns = Pending w
  /\ move_number w = 0%nat
  /\ board (game_state w) = b
  /\ scores (game_state w) = [0; 0].
Proof.
  intros Hpos Hw Hall.
  assert (G : forall us w0 w1, consistent w0 -> turns_applied us w0 = Some w1 ->
              forallb no_score_line us = true ->
              move_number w1 = move_number w0
              /\ board (game_state w1) = board (game_state w0)
              /\ scores (game_state w1) = scores (game_state w0)).
  { induction us as [| inp rest IH]; simpl; intros w0 w1 Hc Hu Hn.
    - injection Hu as <-. auto.
    - apply andb_true_iff in Hn. destruct Hn as [Hn Hrest].
      destruct (turn inp w0) as [w2 | |] eqn:Ht; try discriminate.
      pose proof (turn_consistent _ _ _ Ht Hc) as Hc2.
      destruct (turn_without_score_line _ _ _ Hc Hn Ht) as (E1 & E2 & E3).
      destruct (IH _ _ Hc2 Hu Hrest) as (F1 & F2 & F3).
      repeat split; congruence. }
  destruct (G _ _ _ (start_consistent b) Hw Hall) as (E1 & E2 & E3).
  simpl in E1, E2, E3. repeat split; auto.
  unfold simulate_game.
  rewrite <- (app_nil_r turns).
  rewrite (while_loop_skip (number_of_moves b) turns [] (start b) w Hw)
    by (unfold number_of_moves; lia).
  rewrite while_loop_eq.
  destruct (Nat.ltb_spec (move_number w) (number_of_moves b)); [reflexivity |].
  unfold number_of_moves in *. lia.
Qed.

Lemma turns_without_score_never_finish_witness :
  simulate_game Examples.board_4x4 [Examples.taboo_turn; Examples.silent_turn]
  = Pending (Examples.state_after [Examples.taboo_turn; Examples.silent_turn]
               Examples.board_4x4).
Proof.
  apply (turns_without_score_never_finish Examples.board_4x4
           [Examples.taboo_turn; Examples.silent_turn]
           (Examples.state_after [Examples.taboo_turn; Examples.silent_turn]
              Examples.board_4x4)).
  - vm_compute. lia.
  - reflexivity.
  - reflexivity.
Defined.
